(** * Interview response analysis: normalisation and orchestration

    A shallow embedding of [utils/llm_call.py] and
    [utils/analyze_candidate.py].  Python values are modelled by an
    inductive type, exceptions by an error monad, and the built-ins the
    two modules call ([str.strip], [str.replace], [str.index],
    [json.loads], [float], [str], [repr]) by executable functions that
    follow CPython. *)

From Stdlib Require Import String Ascii.
From Stdlib Require Import List NArith ZArith Bool Lia.
From Stdlib Require Import SpecFloat.
Import ListNotations.

Set Implicit Arguments.

(** ** Python strings

    A [str] is a sequence of Unicode code points. *)

Definition char := N.
Definition pystr := list char.

Definition lit (s : string) : pystr :=
  map N_of_ascii (list_ascii_of_string s).

Definition chr (a : ascii) : char := N_of_ascii a.

Arguments lit s%_string.
Arguments chr a%_char.

Definition dquote : char := 34%N.
Definition backslash : char := 92%N.

(** [jlit] writes a JSON text with single quotes standing for the double
    quotes of the real text, as in [jlit "{'score': 7}"]. *)
Definition jlit (s : string) : pystr :=
  map (fun c => if N.eqb c (chr "'") then dquote else c) (lit s).

Arguments jlit s%_string.

Fixpoint str_eqb (a b : pystr) : bool :=
  match a, b with
  | [], [] => true
  | x :: a', y :: b' => N.eqb x y && str_eqb a' b'
  | _, _ => false
  end.

Fixpoint startswith (p s : pystr) : bool :=
  match p, s with
  | [], _ => true
  | x :: p', y :: s' => N.eqb x y && startswith p' s'
  | _ :: _, [] => false
  end.

(** [str.isspace] on one code point: the characters [str.strip()]
    removes. *)
Definition isspace (c : char) : bool :=
  ((9 <=? c) && (c <=? 13) || (28 <=? c) && (c <=? 32)
   || (c =? 133) || (c =? 160) || (c =? 5760)
   || (8192 <=? c) && (c <=? 8202)
   || (c =? 8232) || (c =? 8233) || (c =? 8239) || (c =? 8287)
   || (c =? 12288))%N.

Fixpoint lstrip (s : pystr) : pystr :=
  match s with
  | [] => []
  | c :: t => if isspace c then lstrip t else s
  end.

Definition rstrip (s : pystr) : pystr := rev (lstrip (rev s)).

Definition strip (s : pystr) : pystr := rstrip (lstrip s).

(** [s.replace(old, new)]: non-overlapping occurrences, leftmost first.
    [skip] counts the characters of a matched occurrence still to drop. *)
Fixpoint replace_from (old new : pystr) (skip : nat) (s : pystr) : pystr :=
  match s with
  | [] => []
  | c :: t =>
      match skip with
      | S k => replace_from old new k t
      | O =>
          if startswith old s
          then new ++ replace_from old new (length old - 1) t
          else c :: replace_from old new 0 t
      end
  end.

Definition replace (old new s : pystr) : pystr :=
  match old with
  | [] => new ++ flat_map (fun c => c :: new) s
  | _ :: _ => replace_from old new 0 s
  end.

(** [s.find(sub)] and [s.rfind(sub)]; [index] and [rindex] raise
    [ValueError] where these return [None]. *)
Fixpoint find (sub s : pystr) : option nat :=
  if startswith sub s then Some O
  else match s with
       | [] => None
       | _ :: t => option_map S (find sub t)
       end.

Fixpoint rfind (sub s : pystr) : option nat :=
  match s with
  | [] => if startswith sub [] then Some O else None
  | _ :: t =>
      match rfind sub t with
      | Some i => Some (S i)
      | None => if startswith sub s then Some O else None
      end
  end.

(** [sub in s] *)
Definition contains (sub s : pystr) : bool :=
  match find sub s with Some _ => true | None => false end.

(** [s[a:b]] for non-negative [a] and [b]. *)
Definition slice (s : pystr) (a b : nat) : pystr :=
  firstn (b - a) (skipn a s).

(** ** Floats

    A Python [float] is an IEEE 754 binary64 number. *)

Definition float := spec_float.
Definition prec : Z := 53.
Definition emax : Z := 1024.

(** [float(z)] for an [int] of any size, before the overflow check. *)
Definition float_of_Z (z : Z) : float := binary_normalize prec emax z 0 false.

(** The float nearest to [m / d], ties to even. *)
Definition float_of_ratio (neg : bool) (m d : positive) : float :=
  let '(q, e, l) := SFdiv_core_binary prec emax (Zpos m) 0 (Zpos d) 0 in
  binary_round_aux prec emax neg q e l.

(** The float nearest to [m * 10^e], ties to even: what CPython's
    [PyOS_string_to_double] computes from a decimal literal. *)
Definition float_of_decimal (neg : bool) (m : N) (e : Z) : float :=
  match m with
  | N0 => S754_zero neg
  | Npos p =>
      if (0 <=? e)%Z
      then binary_normalize prec emax (cond_Zopp neg (Zpos p * 10 ^ e)) 0 neg
      else float_of_ratio neg p (Z.to_pos (10 ^ (- e)))
  end.

Definition float_leb (a b : float) : bool := SFleb a b.

(** ** Python values *)

#[warnings="-register-all"]
Inductive pyval : Type :=
| VNone
| VBool (b : bool)
| VInt (z : Z)
| VFloat (f : float)
| VStr (s : pystr)
| VList (l : list pyval)
| VDict (d : list (pystr * pyval)).

(** A [dict] with [str] keys, in insertion order. *)
Definition dict := list (pystr * pyval).

Fixpoint dict_get (k : pystr) (d : dict) : option pyval :=
  match d with
  | [] => None
  | (k', v) :: d' => if str_eqb k k' then Some v else dict_get k d'
  end.

(** [k in d] *)
Definition dict_mem (k : pystr) (d : dict) : bool :=
  match dict_get k d with Some _ => true | None => false end.

(** [d[k] = v]: a key already present keeps its position. *)
Fixpoint dict_set (k : pystr) (v : pyval) (d : dict) : dict :=
  match d with
  | [] => [(k, v)]
  | (k', v') :: d' =>
      if str_eqb k k' then (k', v) :: d' else (k', v') :: dict_set k v d'
  end.

(** ** Exceptions

    An [exn] stands for an instance of a subclass of [Exception]: its
    class and the text [str(e)] gives.  Signals that derive from
    [BaseException] only (interpreter exit, keyboard interrupt, task
    cancellation) are not failures of a call and have no place here. *)

Inductive exc_type : Type :=
| InterviewAnalysisError
| RuntimeError
| ValueError
| TypeError
| OverflowError
| KeyError
| IndexError
| AttributeError
| TimeoutError
| OtherException (name : pystr).

Record exn : Type := Exn { exn_class : exc_type; exn_str : pystr }.

Inductive result (A : Type) : Type :=
| Ok (a : A)
| Raise (e : exn).

Arguments Ok {A} a.
Arguments Raise {A} e.

Definition bind {A B} (r : result A) (k : A -> result B) : result B :=
  match r with
  | Ok a => k a
  | Raise e => Raise e
  end.

Notation "x <- r ;; k" := (bind r (fun x => k))
  (at level 61, r at next level, right associativity).

(** [raise InterviewAnalysisError(msg)] *)
Definition raise_analysis {A} (msg : pystr) : result A :=
  Raise (Exn InterviewAnalysisError msg).

(** [try: body  except Exception as e: raise
    InterviewAnalysisError(f"<prefix>{str(e)}")] *)
Definition rewrap {A} (prefix : pystr) (body : result A) : result A :=
  match body with
  | Ok a => Ok a
  | Raise e => raise_analysis (prefix ++ exn_str e)
  end.

(** ** [json.loads]

    The decoder follows CPython's scanner ([scan_once], [scanstring],
    the number matcher, the object and array loops) with the default
    hooks and [strict=True].  A decoding error is [None]: both callers
    catch every exception of [json.loads] and drop its message.  The
    interpreter's recursion limit and its limit on the digits of an
    [int] literal are not modelled. *)

Local Open Scope N_scope.

Definition is_json_ws (c : char) : bool :=
  (c =? 32) || (c =? 9) || (c =? 10) || (c =? 13).

Fixpoint skip_ws (s : pystr) : pystr :=
  match s with
  | [] => []
  | c :: t => if is_json_ws c then skip_ws t else s
  end.

Definition is_digit (c : char) : bool := (48 <=? c) && (c <=? 57).

Definition hex_digit (c : char) : option N :=
  if is_digit c then Some (c - 48)
  else if (97 <=? c) && (c <=? 102) then Some (c - 87)
  else if (65 <=? c) && (c <=? 70) then Some (c - 55)
  else None.

Definition hex4 (a b c d : char) : option N :=
  match hex_digit a, hex_digit b, hex_digit c, hex_digit d with
  | Some x, Some y, Some z, Some w => Some (((x * 16 + y) * 16 + z) * 16 + w)
  | _, _, _, _ => None
  end.

Definition is_high_surrogate (u : N) : bool := (55296 <=? u) && (u <=? 56319).
Definition is_low_surrogate (u : N) : bool := (56320 <=? u) && (u <=? 57343).
Definition join_surrogates (hi lo : N) : N :=
  65536 + (hi - 55296) * 1024 + (lo - 56320).

Definition simple_escape (c : char) : option char :=
  if (c =? dquote) || (c =? backslash) || (c =? chr "/") then Some c
  else if c =? chr "b" then Some 8
  else if c =? chr "f" then Some 12
  else if c =? chr "n" then Some 10
  else if c =? chr "r" then Some 13
  else if c =? chr "t" then Some 9
  else None.

Definition push (c : char) (r : option (pystr * pystr)) :
  option (pystr * pystr) :=
  match r with
  | Some (body, rest) => Some (c :: body, rest)
  | None => None
  end.

(** [scanstring s] reads a string body up to its closing quote; [s]
    starts just after the opening quote. *)
Fixpoint scanstring (s : pystr) : option (pystr * pystr) :=
  match s with
  | [] => None
  | c :: t =>
      if c =? dquote then Some ([], t)
      else if c =? backslash then
        match t with
        | [] => None
        | e :: t1 =>
            if e =? chr "u" then
              match t1 with
              | h1 :: h2 :: h3 :: h4 :: t2 =>
                  match hex4 h1 h2 h3 h4 with
                  | None => None
                  | Some u =>
                      match t2 with
                      | b :: x :: g1 :: g2 :: g3 :: g4 :: (_ :: _) as t3 =>
                          if is_high_surrogate u && (b =? backslash)
                             && (x =? chr "u")
                          then
                            match hex4 g1 g2 g3 g4 with
                            | None => None
                            | Some u2 =>
                                if is_low_surrogate u2
                                then push (join_surrogates u u2) (scanstring t3)
                                else push u (scanstring t2)
                            end
                          else push u (scanstring t2)
                      | _ => push u (scanstring t2)
                      end
                  end
              | _ => None
              end
            else
              match simple_escape e with
              | Some c' => push c' (scanstring t1)
              | None => None
              end
        end
      else if c <=? 31 then None
      else push c (scanstring t)
  end.

Fixpoint span_digits (s : pystr) : pystr * pystr :=
  match s with
  | [] => ([], [])
  | c :: t =>
      if is_digit c
      then let (ds, r) := span_digits t in (c :: ds, r)
      else ([], s)
  end.

Definition digits_value (ds : pystr) : N :=
  fold_left (fun acc c => acc * 10 + (c - 48)) ds 0.

(** The integer part [0|[1-9][0-9]*] of a number. *)
Definition match_int_part (s : pystr) : option (pystr * pystr) :=
  match s with
  | [] => None
  | c :: t =>
      if c =? chr "0" then Some ([c], t)
      else if is_digit c
           then let (ds, r) := span_digits t in Some (c :: ds, r)
           else None
  end.

(** The optional fraction [\.[0-9]+]. *)
Definition match_frac (s : pystr) : option pystr * pystr :=
  match s with
  | dot :: d :: t =>
      if (dot =? chr ".") && is_digit d
      then let (ds, r) := span_digits (d :: t) in (Some ds, r)
      else (None, s)
  | _ => (None, s)
  end.

(** The optional exponent [[eE][-+]?[0-9]+]. *)
Definition match_exp (s : pystr) : option Z * pystr :=
  match s with
  | e :: t =>
      if (e =? chr "e") || (e =? chr "E") then
        let '(neg, t') :=
          match t with
          | sg :: u =>
              if sg =? chr "-" then (true, u)
              else if sg =? chr "+" then (false, u)
              else (false, t)
          | [] => (false, t)
          end in
        match span_digits t' with
        | ([], _) => (None, s)
        | (ds, r) => (Some (cond_Zopp neg (Z.of_N (digits_value ds))), r)
        end
      else (None, s)
  | [] => (None, s)
  end.

(** A number with neither fraction nor exponent is an [int], any other a
    [float]. *)
Definition number_value (neg : bool) (ip : pystr) (frac : option pystr)
    (ex : option Z) : pyval :=
  match frac, ex with
  | None, None => VInt (cond_Zopp neg (Z.of_N (digits_value ip)))
  | _, _ =>
      let fr := match frac with Some ds => ds | None => [] end in
      let e := match ex with Some e => e | None => 0%Z end in
      VFloat (float_of_decimal neg (digits_value (ip ++ fr))
                               (e - Z.of_nat (length fr)))
  end.

Definition match_number (s : pystr) : option (pyval * pystr) :=
  let '(neg, s1) :=
    match s with
    | c :: t => if c =? chr "-" then (true, t) else (false, s)
    | [] => (false, s)
    end in
  match match_int_part s1 with
  | None => None
  | Some (ip, s2) =>
      let '(frac, s3) := match_frac s2 in
      let '(ex, s4) := match_exp s3 in
      Some (number_value neg ip frac ex, s4)
  end.

(** Outcome of scanning one JSON term. *)
Inductive scan (A : Type) : Type :=
| Parsed (a : A) (rest : pystr)
| Invalid
| OutOfFuel.

Arguments Parsed {A} a rest.
Arguments Invalid {A}.
Arguments OutOfFuel {A}.

Definition nan : float := S754_nan.
Definition inf (neg : bool) : float := S754_infinity neg.

Fixpoint scan_once (fuel : nat) (s : pystr) {struct fuel} : scan pyval :=
  match fuel with
  | O => OutOfFuel
  | S fuel' =>
      match s with
      | [] => Invalid
      | c :: t =>
          if c =? dquote then
            match scanstring t with
            | Some (body, rest) => Parsed (VStr body) rest
            | None => Invalid
            end
          else if c =? chr "{" then
            match skip_ws t with
            | c1 :: t1 =>
                if c1 =? chr "}" then Parsed (VDict []) t1
                else parse_object fuel' (c1 :: t1) []
            | [] => Invalid
            end
          else if c =? chr "[" then
            match skip_ws t with
            | c1 :: t1 =>
                if c1 =? chr "]" then Parsed (VList []) t1
                else parse_array fuel' (c1 :: t1) []
            | [] => Invalid
            end
          else if startswith (lit "null") s then Parsed VNone (skipn 4 s)
          else if startswith (lit "true") s then Parsed (VBool true) (skipn 4 s)
          else if startswith (lit "false") s
               then Parsed (VBool false) (skipn 5 s)
          else if startswith (lit "NaN") s then Parsed (VFloat nan) (skipn 3 s)
          else if startswith (lit "Infinity") s
               then Parsed (VFloat (inf false)) (skipn 8 s)
          else if startswith (lit "-Infinity") s
               then Parsed (VFloat (inf true)) (skipn 9 s)
          else
            match match_number s with
            | Some (v, rest) => Parsed v rest
            | None => Invalid
            end
      end
  end

(** The members of an object, from the opening quote of a key on;
    [acc] holds the members read so far. *)
with parse_object (fuel : nat) (s : pystr) (acc : dict) {struct fuel}
    : scan pyval :=
  match fuel with
  | O => OutOfFuel
  | S fuel' =>
      match s with
      | [] => Invalid
      | q :: t =>
          if q =? dquote then
            match scanstring t with
            | None => Invalid
            | Some (key, r1) =>
                match skip_ws r1 with
                | [] => Invalid
                | colon :: r2 =>
                    if colon =? chr ":" then
                      match scan_once fuel' (skip_ws r2) with
                      | Invalid => Invalid
                      | OutOfFuel => OutOfFuel
                      | Parsed v r3 =>
                          let acc' := dict_set key v acc in
                          match skip_ws r3 with
                          | [] => Invalid
                          | d :: r4 =>
                              if d =? chr "}" then Parsed (VDict acc') r4
                              else if d =? chr ","
                                   then parse_object fuel' (skip_ws r4) acc'
                                   else Invalid
                          end
                      end
                    else Invalid
                end
            end
          else Invalid
      end
  end

(** The elements of an array; [acc] holds, last first, the elements
    read so far. *)
with parse_array (fuel : nat) (s : pystr) (acc : list pyval) {struct fuel}
    : scan pyval :=
  match fuel with
  | O => OutOfFuel
  | S fuel' =>
      match scan_once fuel' s with
      | Invalid => Invalid
      | OutOfFuel => OutOfFuel
      | Parsed v r1 =>
          match skip_ws r1 with
          | [] => Invalid
          | d :: r2 =>
              if d =? chr "]" then Parsed (VList (rev (v :: acc))) r2
              else if d =? chr ","
                   then parse_array fuel' (skip_ws r2) (v :: acc)
                   else Invalid
          end
      end
  end.

(** Fuel that always suffices for a text of the given length (see
    [scan_once_fuel]). *)
Definition scan_fuel (s : pystr) : nat := 2 * length s + 1.

(** [json.loads(s)] for a [str]: the byte-order mark is refused, one
    term is read, and only white space may follow it. *)
Definition json_loads (s : pystr) : option pyval :=
  if startswith [65279] s then None
  else
    match scan_once (scan_fuel s) (skip_ws s) with
    | Parsed v rest =>
        match skip_ws rest with
        | [] => Some v
        | _ :: _ => None
        end
    | Invalid | OutOfFuel => None
    end.

(** ** [repr] of a float

    [repr(x)] is the shortest decimal that [float] reads back as [x],
    the nearest to [x] when several have that length, in positional
    notation when the decimal point falls within the first sixteen
    digits and in exponent notation otherwise. *)

Local Open Scope Z_scope.

Fixpoint count_digits (fuel : nat) (n : Z) : Z :=
  match fuel with
  | O => 1
  | S fuel' => if n <? 10 then 1 else 1 + count_digits fuel' (n / 10)
  end.

Definition decimal_length (n : Z) : Z :=
  count_digits (Z.to_nat (Z.log2 n) + 1) n.

(** The least [j >= 1] with [num * 10^j >= den], searched upwards. *)
Fixpoint scale_up (fuel : nat) (num den j : Z) : Z :=
  match fuel with
  | O => j
  | S fuel' =>
      if den <=? num * 10 ^ j then j else scale_up fuel' num den (j + 1)
  end.

(** [floor (log10 (num / den))] for positive [num] and [den]. *)
Definition floor_log10 (num den : Z) : Z :=
  if den <=? num then decimal_length (num / den) - 1
  else - scale_up (Z.to_nat (Z.log2 den) + 1) num den 1.

Definition float_eqb_repr (a b : float) : bool :=
  match a, b with
  | S754_finite s m e, S754_finite s' m' e' =>
      Bool.eqb s s' && (m =? m')%positive && (e =? e')
  | _, _ => false
  end.

(** The candidate with [n] significant digits: coefficient [c] and
    exponent [k] with [c * 10^k] nearest to [num / den], if it reads
    back as [x]. *)
Definition candidate (x : float) (num den lg : Z) (n : Z) : option (Z * Z) :=
  let k := lg - n + 1 in
  let '(a, b) := if 0 <=? k then (num, den * 10 ^ k)
                 else (num * 10 ^ (- k), den) in
  let '(q, r) := Z.div_eucl a b in
  let back c := float_eqb_repr (float_of_decimal false (Z.to_N c) k) x in
  let lo := back q in
  let hi := back (q + 1) in
  if r =? 0 then Some (q, k)
  else if lo && hi then
    match 2 * r ?= b with
    | Lt => Some (q, k)
    | Gt => Some (q + 1, k)
    | Eq => if Z.even q then Some (q, k) else Some (q + 1, k)
    end
  else if lo then Some (q, k)
  else if hi then Some (q + 1, k)
  else None.

Fixpoint shortest_from (fuel : nat) (x : float) (num den lg n : Z)
    : Z * Z :=
  match candidate x num den lg n with
  | Some ck => ck
  | None =>
      match fuel with
      | O => (num / den, 0)
      | S fuel' => shortest_from fuel' x num den lg (n + 1)
      end
  end.

Fixpoint strip_zeros (fuel : nat) (c k : Z) : Z * Z :=
  match fuel with
  | O => (c, k)
  | S fuel' =>
      if (c mod 10 =? 0) && (0 <? c) then strip_zeros fuel' (c / 10) (k + 1)
      else (c, k)
  end.

Fixpoint digits_of (fuel : nat) (n : Z) (acc : pystr) : pystr :=
  match fuel with
  | O => acc
  | S fuel' =>
      let acc' := (Z.to_N (n mod 10) + 48)%N :: acc in
      if n <? 10 then acc' else digits_of fuel' (n / 10) acc'
  end.

(** [str(n)] for a non-negative [int]. *)
Definition decimal (n : Z) : pystr :=
  digits_of (Z.to_nat (Z.log2 n) + 1) n [].

(** [str(z)] for an [int]. *)
Definition int_str (z : Z) : pystr :=
  if z <? 0 then chr "-" :: decimal (- z) else decimal z.

Definition zeros (n : Z) : pystr := repeat (chr "0") (Z.to_nat n).

(** Layout of the digits [ds] with the decimal point after the first
    [decpt] of them. *)
Definition format_short (ds : pystr) (decpt : Z) : pystr :=
  let nd := Z.of_nat (length ds) in
  if (decpt <=? -4) || (16 <? decpt) then
    let e := decpt - 1 in
    let mant := match ds with
                | [] => []
                | [d] => [d]
                | d :: rest => d :: chr "." :: rest
                end in
    let ex := decimal (Z.abs e) in
    mant ++ chr "e" :: (if e <? 0 then chr "-" else chr "+")
         :: (if Z.abs e <? 10 then chr "0" :: ex else ex)
  else if decpt <=? 0 then
    lit "0." ++ zeros (- decpt) ++ ds
  else if nd <=? decpt then
    ds ++ zeros (decpt - nd) ++ lit ".0"
  else
    firstn (Z.to_nat decpt) ds ++ chr "." :: skipn (Z.to_nat decpt) ds.

Definition float_repr (x : float) : pystr :=
  match x with
  | S754_nan => lit "nan"
  | S754_infinity s => if s then lit "-inf" else lit "inf"
  | S754_zero s => if s then lit "-0.0" else lit "0.0"
  | S754_finite s m e =>
      let '(num, den) := if 0 <=? e then (Zpos m * 2 ^ e, 1)
                         else (Zpos m, 2 ^ (- e)) in
      let lg := floor_log10 num den in
      let '(c0, k0) := shortest_from 17 (S754_finite false m e) num den lg 1 in
      let '(c, k) := strip_zeros 17 c0 k0 in
      let ds := decimal c in
      (if s then [chr "-"] else [])
        ++ format_short ds (Z.of_nat (length ds) + k)
  end.

(** ** [str], [repr] and [float] on values

    Two tables of the interpreter's Unicode database are taken as given:
    the decimal value of a digit outside ASCII, and which characters
    outside ASCII are printable. *)

Record unicode_db : Type := {
  unicode_decimal : char -> option N;
  unicode_printable : char -> bool
}.

Local Open Scope N_scope.

Definition squote : char := chr "'".

Definition hex_char (n : N) : char := if n <? 10 then 48 + n else 87 + n.

Fixpoint hex_digits (width : nat) (n : N) (acc : pystr) : pystr :=
  match width with
  | O => acc
  | S w => hex_digits w (n / 16) (hex_char (n mod 16) :: acc)
  end.

Definition type_name (v : pyval) : pystr :=
  match v with
  | VNone => lit "NoneType"
  | VBool _ => lit "bool"
  | VInt _ => lit "int"
  | VFloat _ => lit "float"
  | VStr _ => lit "str"
  | VList _ => lit "list"
  | VDict _ => lit "dict"
  end.

Fixpoint join (sep : pystr) (parts : list pystr) : pystr :=
  match parts with
  | [] => []
  | [p] => p
  | p :: rest => p ++ sep ++ join sep rest
  end.

(** ASCII white space, [Py_ISSPACE]. *)
Definition is_ascii_space (c : char) : bool :=
  ((9 <=? c) && (c <=? 13)) || (c =? 32).

Fixpoint lstrip_ascii (s : pystr) : pystr :=
  match s with
  | [] => []
  | c :: t => if is_ascii_space c then lstrip_ascii t else s
  end.

(** Underscores of a numeric literal: allowed only between two digits.
    [prev] is the previous character. *)
Fixpoint drop_underscores (prev : char) (s : pystr) : option pystr :=
  match s with
  | [] => if prev =? chr "_" then None else Some []
  | c :: t =>
      if c =? chr "_" then
        if is_digit prev then drop_underscores c t else None
      else if (prev =? chr "_") && negb (is_digit c) then None
      else match drop_underscores c t with
           | Some r => Some (c :: r)
           | None => None
           end
  end.

Definition lower (c : char) : char :=
  if (65 <=? c) && (c <=? 90) then c + 32 else c.

(** [inf], [infinity] or [nan] in any case, after the sign. *)
Definition parse_inf_or_nan (neg : bool) (s : pystr) : option float :=
  let l := map lower s in
  if str_eqb l (lit "inf") || str_eqb l (lit "infinity") then Some (inf neg)
  else if str_eqb l (lit "nan") then Some nan
  else None.

(** A decimal literal after the sign: digits, an optional point and
    more digits, at least one digit in all, and an optional exponent. *)
Definition parse_decimal (neg : bool) (s : pystr) : option float :=
  let '(ip, s1) := span_digits s in
  let '(fr, s2) :=
    match s1 with
    | dot :: t => if dot =? chr "." then span_digits t else ([], s1)
    | [] => ([], s1)
    end in
  match ip ++ fr with
  | [] => None
  | ds =>
      let '(ex, s3) := match_exp s2 in
      match s3 with
      | [] =>
          let e := match ex with Some e => e | None => 0%Z end in
          Some (float_of_decimal neg (digits_value ds)
                                 (e - Z.of_nat (length fr)))
      | _ :: _ => None
      end
  end.

Definition parse_float_literal (s : pystr) : option float :=
  let '(neg, body) :=
    match s with
    | c :: t =>
        if c =? chr "-" then (true, t)
        else if c =? chr "+" then (false, t)
        else (false, s)
    | [] => (false, s)
    end in
  match parse_decimal neg body with
  | Some f => Some f
  | None => parse_inf_or_nan neg body
  end.

Section Builtins.

Variable db : unicode_db.

(** One character of [repr(s)] inside the quotes [quote]. *)
Definition repr_char (quote c : char) : pystr :=
  if (c =? quote) || (c =? backslash) then [backslash; c]
  else if c =? 9 then [backslash; chr "t"]
  else if c =? 10 then [backslash; chr "n"]
  else if c =? 13 then [backslash; chr "r"]
  else if (c <? 32) || (c =? 127)
       then backslash :: chr "x" :: hex_digits 2 c []
  else if c <? 127 then [c]
  else if unicode_printable db c then [c]
  else if c <=? 255 then backslash :: chr "x" :: hex_digits 2 c []
  else if c <=? 65535 then backslash :: chr "u" :: hex_digits 4 c []
  else backslash :: chr "U" :: hex_digits 8 c [].

(** [repr(s)] for a [str]: double quotes when the text has a single
    quote and no double quote, single quotes otherwise. *)
Definition str_repr (s : pystr) : pystr :=
  let quote :=
    if existsb (N.eqb squote) s && negb (existsb (N.eqb dquote) s)
    then dquote else squote in
  quote :: flat_map (repr_char quote) s ++ [quote].

Fixpoint py_repr (v : pyval) : pystr :=
  match v with
  | VNone => lit "None"
  | VBool b => if b then lit "True" else lit "False"
  | VInt z => int_str z
  | VFloat f => float_repr f
  | VStr s => str_repr s
  | VList l => chr "[" :: join (lit ", ") (map py_repr l) ++ [chr "]"]
  | VDict d =>
      chr "{"
        :: join (lit ", ")
             (map (fun kv => str_repr (fst kv) ++ lit ": " ++ py_repr (snd kv))
                  d)
        ++ [chr "}"]
  end.

(** [str(v)], which is also what an f-string field [{v}] renders. *)
Definition py_str (v : pyval) : pystr :=
  match v with
  | VStr s => s
  | _ => py_repr v
  end.

(** The characters of a [str] as [float] sees them: ASCII unchanged,
    other white space as a blank, other decimal digits as ASCII
    digits; any other character is refused. *)
Fixpoint to_ascii_decimal (s : pystr) : option pystr :=
  match s with
  | [] => Some []
  | c :: t =>
      let oc :=
        if c <? 127 then Some c
        else if isspace c then Some 32
        else match unicode_decimal db c with
             | Some d => Some (48 + d)
             | None => None
             end in
      match oc, to_ascii_decimal t with
      | Some c', Some t' => Some (c' :: t')
      | _, _ => None
      end
  end.

(** [float(s)] for a [str]; [None] stands for [ValueError]. *)
Definition float_of_str (s : pystr) : option float :=
  match to_ascii_decimal s with
  | None => None
  | Some a =>
      match drop_underscores 0 a with
      | None => None
      | Some b =>
          parse_float_literal (rev (lstrip_ascii (rev (lstrip_ascii b))))
      end
  end.

Definition float_type_error (v : pyval) : exn :=
  Exn TypeError
      (lit "float() argument must be a string or a real number, not '"
         ++ type_name v ++ lit "'").

(** [float(v)] *)
Definition py_float (v : pyval) : result float :=
  match v with
  | VBool b => Ok (float_of_Z (if b then 1 else 0))
  | VInt z =>
      match float_of_Z z with
      | S754_infinity _ =>
          Raise (Exn OverflowError (lit "int too large to convert to float"))
      | f => Ok f
      end
  | VFloat f => Ok f
  | VStr s =>
      match float_of_str s with
      | Some f => Ok f
      | None =>
          Raise (Exn ValueError
                     (lit "could not convert string to float: "
                        ++ str_repr s))
      end
  | VNone | VList _ | VDict _ => Raise (float_type_error v)
  end.

End Builtins.

(** * [utils/llm_call.py] *)

(** [get_response_from_llm(prompt)].  [generate] stands for the remote
    model, [GenerativeModel(LLM_MODEL).generate_content(prompt,
    ...).text]: it answers with a text or raises. *)
Definition get_response_from_llm (generate : pystr -> result pystr)
    (prompt : pystr) : result pystr :=
  match generate prompt with
  | Ok text => Ok text
  | Raise e =>
      Raise (Exn RuntimeError (lit "Gemini API call failed: " ++ exn_str e))
  end.

Definition fence_json : pystr := lit "```json".
Definition fence : pystr := lit "```".
Definition lbrace : pystr := lit "{".
Definition rbrace : pystr := lit "}".

(** [s[s.index("{"): s.rindex("}") + 1]]; [None] when [index] or
    [rindex] raises [ValueError]. *)
Definition brace_slice (s : pystr) : option pystr :=
  match find lbrace s, rfind rbrace s with
  | Some i, Some j => Some (slice s i (j + 1))
  | _, _ => None
  end.

(** [parse_json_response(response)]: every exception raised in the body
    is caught and turned into [None]; so is the [AttributeError] of
    [response.replace] when [response] is not a [str]. *)
Definition parse_json_response (response : pyval) : pyval :=
  match response with
  | VStr r =>
      let clean := strip (replace fence [] (replace fence_json [] r)) in
      if contains lbrace clean && contains rbrace clean then
        match brace_slice clean with
        | Some json_str =>
            match json_loads json_str with
            | Some v => v
            | None => VNone
            end
        | None => VNone
        end
      else VNone
  | _ => VNone
  end.

(** * [utils/analyze_candidate.py] *)

Definition type_repr (v : pyval) : pystr :=
  lit "<class '" ++ type_name v ++ lit "'>".

(** [_safe_json_parse(data)] *)
Definition _safe_json_parse (data : pyval) : result pyval :=
  match data with
  | VNone => raise_analysis (lit "LLM returned None instead of valid JSON")
  | VDict _ => Ok data
  | VStr s =>
      let data := strip s in
      match json_loads data with
      | Some v => Ok v
      | None =>
          match brace_slice data with
          | Some json_text =>
              match json_loads json_text with
              | Some v => Ok v
              | None => raise_analysis (lit "Invalid JSON from LLM: " ++ data)
              end
          | None => raise_analysis (lit "Invalid JSON from LLM: " ++ data)
          end
      end
  | _ => raise_analysis (lit "LLM returned unsupported format: " ++ type_repr data)
  end.

(** The normaliser: what [_make_llm_call_async] applies to the text of
    the model. *)
Definition normalize (raw : pyval) : result pyval :=
  _safe_json_parse (parse_json_response raw).

(** [_make_llm_call_async(prompt)] *)
Definition _make_llm_call_async (generate : pystr -> result pystr)
    (prompt : pystr) : result pyval :=
  rewrap (lit "Failed to get LLM response: ")
    (response_text <- get_response_from_llm generate prompt ;;
     let response_json := parse_json_response (VStr response_text) in
     _safe_json_parse response_json).

(** [d[k]] *)
Definition dict_item (db : unicode_db) (k : pystr) (d : dict) : result pyval :=
  match dict_get k d with
  | Some v => Ok v
  | None => Raise (Exn KeyError (str_repr db k))
  end.

(** [0 <= score <= 10] *)
Definition score_in_range (score : float) : bool :=
  float_leb (float_of_Z 0) score && float_leb score (float_of_Z 10).

(** The events the event loop delivers to the combined operation while
    it awaits [wait_for(gather(feedback_task, next_question_task),
    timeout)]: the completion of either task and the expiry of the
    timeout.  Their order stands for the latencies of the two calls and
    for [timeout]. *)
Inductive event : Type :=
| FeedbackDone
| QuestionDone
| DeadlineReached.

Section Orchestrator.

Variable db : unicode_db.

(** [utils/prompts.py]: the two templates, and [template.format] with
    its keyword arguments in the order of the call. *)
Variable next_question_generation : pystr.
Variable feedback_generation : pystr.
Variable str_format : pystr -> list (pystr * pystr) -> result pystr.

(** What [get_next_question] does with the response of the model:
    the two checks and the field it returns. *)
Definition next_question_of (response : pyval) : result pyval :=
  match response with
  | VDict d =>
      if negb (dict_mem (lit "next_question") d)
      then raise_analysis
             (lit "Missing 'next_question' in LLM output: "
                ++ py_str db response)
      else dict_item db (lit "next_question") d
  | _ =>
      raise_analysis (lit "LLM returned non-dict: " ++ py_str db response)
  end.

Definition next_question_prompt
    (previous_question candidate_response resume_highlights
       job_description : pystr) : result pystr :=
  str_format next_question_generation
    [(lit "previous_question", previous_question);
     (lit "candidate_response", candidate_response);
     (lit "resume_highlights", resume_highlights);
     (lit "job_description", job_description)].

(** [get_next_question(previous_question, candidate_response,
    resume_highlights, job_description)] *)
Definition get_next_question (generate : pystr -> result pystr)
    (previous_question candidate_response resume_highlights
       job_description : pystr) : result pyval :=
  rewrap (lit "Question generation failed: ")
    (final_prompt <-
       next_question_prompt previous_question candidate_response
         resume_highlights job_description ;;
     response <- _make_llm_call_async generate final_prompt ;;
     next_question_of response).

(** The score check of [get_feedback_of_candidate_response]: the inner
    [try] with its own handler. *)
Definition validate_score (response : dict) : result unit :=
  match
    (sv <- dict_item db (lit "score") response ;;
     score <- py_float db sv ;;
     if negb (score_in_range score)
     then raise_analysis (lit "Score out of range: " ++ float_repr score)
     else Ok tt)
  with
  | Ok _ => Ok tt
  | Raise _ =>
      sv <- dict_item db (lit "score") response ;;
      raise_analysis (lit "Score must be a number: " ++ py_str db sv)
  end.

(** What [get_feedback_of_candidate_response] does with the response
    of the model: the checks and the mapping it returns. *)
Definition feedback_of (response : pyval) : result pyval :=
  match response with
  | VDict d =>
      let required_fields := [lit "feedback"; lit "score"] in
      let missing :=
        filter (fun f => negb (dict_mem f d)) required_fields in
      match missing with
      | _ :: _ =>
          raise_analysis
            (lit "Missing fields: " ++ py_repr db (VList (map VStr missing)))
      | [] =>
          _ <- validate_score d ;;
          fv <- dict_item db (lit "feedback") d ;;
          sv <- dict_item db (lit "score") d ;;
          Ok (VDict [(lit "feedback", fv); (lit "score", sv)])
      end
  | _ =>
      raise_analysis
        (lit "Invalid feedback response: " ++ py_str db response)
  end.

Definition feedback_prompt
    (question candidate_response job_description resume_highlights : pystr)
    : result pystr :=
  str_format feedback_generation
    [(lit "question", question);
     (lit "candidate_response", candidate_response);
     (lit "job_description", job_description);
     (lit "resume_highlights", resume_highlights)].

(** [get_feedback_of_candidate_response(question, candidate_response,
    job_description, resume_highlights)] *)
Definition get_feedback_of_candidate_response
    (generate : pystr -> result pystr)
    (question candidate_response job_description resume_highlights : pystr)
    : result pyval :=
  rewrap (lit "Feedback generation failed: ")
    (final_prompt <-
       feedback_prompt question candidate_response job_description
         resume_highlights ;;
     response <- _make_llm_call_async generate final_prompt ;;
     feedback_of response).

(** [await asyncio.wait_for(asyncio.gather(feedback_task,
    next_question_task), timeout)].  [fb] and [nq] are what the two
    tasks end with; [fb_done] and [nq_done] tell which have ended.
    [gather] raises the exception of the first task that fails and
    otherwise gives the results in the order of its arguments;
    [wait_for] raises [TimeoutError] at the deadline.  [None]: nothing
    in [sched] resumes the caller. *)
Fixpoint wait_for_gather (fb nq : result pyval) (fb_done nq_done : bool)
    (sched : list event) : option (result (pyval * pyval)) :=
  match sched with
  | [] => None
  | DeadlineReached :: _ => Some (Raise (Exn TimeoutError []))
  | FeedbackDone :: rest =>
      if fb_done then wait_for_gather fb nq fb_done nq_done rest
      else
        match fb with
        | Raise e => Some (Raise e)
        | Ok f =>
            if nq_done
            then Some (q <- nq ;; Ok (f, q))
            else wait_for_gather fb nq true nq_done rest
        end
  | QuestionDone :: rest =>
      if nq_done then wait_for_gather fb nq fb_done nq_done rest
      else
        match nq with
        | Raise e => Some (Raise e)
        | Ok q =>
            if fb_done
            then Some (f <- fb ;; Ok (f, q))
            else wait_for_gather fb nq fb_done true rest
        end
  end.

Definition is_timeout (e : exn) : bool :=
  match exn_class e with
  | TimeoutError => true
  | _ => false
  end.

(** [analyze_candidate_response_and_generate_new_question(question,
    candidate_response, job_description, resume_highlights, timeout)].
    [generate_fb] and [generate_nq] are the remote model as each of
    the two calls meets it; [sched] stands for [timeout] and the
    latencies. *)
Definition analyze_candidate_response_and_generate_new_question
    (generate_fb generate_nq : pystr -> result pystr)
    (question candidate_response job_description resume_highlights : pystr)
    (sched : list event) : option (result (pyval * pyval)) :=
  let feedback_task :=
    get_feedback_of_candidate_response generate_fb
      question candidate_response job_description resume_highlights in
  let next_question_task :=
    get_next_question generate_nq
      question candidate_response resume_highlights job_description in
  match wait_for_gather feedback_task next_question_task false false sched with
  | None => None
  | Some (Ok (feedback, next_question)) => Some (Ok (next_question, feedback))
  | Some (Raise e) =>
      if is_timeout e
      then Some (raise_analysis (lit "LLM operations timed out"))
      else Some (raise_analysis (lit "Response analysis failed: " ++ exn_str e))
  end.

End Orchestrator.

(** After the events [pre] the combined operation still waits: [gather]
    has neither its two results nor an exception, and the deadline has
    not been reached. *)
Definition still_waiting (fb nq : result pyval) (pre : list event) : Prop :=
  wait_for_gather fb nq false false pre = None.

(** ** A sample environment, for the concrete cases *)

(** A database that knows no digit and no printable character outside
    ASCII; the concrete cases use ASCII texts only. *)
Definition ascii_db : unicode_db :=
  {| unicode_decimal := fun _ => None; unicode_printable := fun _ => false |}.

(** A renderer that appends the arguments, as [name=value] lines, to the
    template. *)
Definition sample_format (template : pystr) (kwargs : list (pystr * pystr))
    : result pystr :=
  Ok (template
        ++ flat_map (fun kv => 10%N :: fst kv ++ chr "=" :: snd kv) kwargs).

Definition sample_question_template : pystr := lit "Ask the next question.".
Definition sample_feedback_template : pystr := lit "Rate the answer.".

(** A remote model that always answers with the same text. *)
Definition answers (text : pystr) : pystr -> result pystr := fun _ => Ok text.

(** A remote model that always fails. *)
Definition fails (e : exn) : pystr -> result pystr := fun _ => Raise e.

Definition sample_question : pystr := lit "What is a mutex?".
Definition sample_answer : pystr :=
  lit "A lock that one thread holds at a time.".
Definition sample_job : pystr := lit "Backend engineer".
Definition sample_resume : pystr := lit "Five years of systems programming".

Definition quota_error : exn :=
  Exn (OtherException (lit "ResourceExhausted")) (lit "429 quota exceeded").

(** Texts of the remote model. *)
Definition feedback_text : pystr :=
  jlit "{'feedback': 'Clear and correct.', 'score': '7', 'confidence': 0.9}".
Definition question_text : pystr :=
  jlit "{'next_question': 'How would you avoid a deadlock?'}".
Definition numeric_question_text : pystr := jlit "{'next_question': 5}".
Definition empty_object_text : pystr := jlit "{}".
Definition high_score_text : pystr :=
  jlit "{'feedback': 'Excellent.', 'score': 11}".
Definition word_score_text : pystr :=
  jlit "{'feedback': 'Fine.', 'score': 'high'}".
Definition integer_score_text : pystr :=
  jlit "{'feedback': 'Good.', 'score': 8}".
Definition boolean_score_text : pystr :=
  jlit "{'feedback': 'Fine.', 'score': true}".

(** An answer in prose, with no JSON in it. *)
Definition refusal_text : pystr := lit "I cannot answer that.".

(** A fenced answer in prose, in three parts. *)
Definition prose_before : pystr := lit "Here is my assessment: ```json ".
Definition object_body : pystr :=
  jlit "'feedback': 'clear answer', 'score': 7".
Definition prose_after : pystr := lit " ``` Hope this helps!".

(** ** Vocabulary of the properties *)

(** [m] occurs in [msg]. *)
Definition embeds (m msg : pystr) : Prop :=
  exists pre post, msg = pre ++ m ++ post.

(** The failure of one of the layers an operation goes through, in the
    order it goes through them: rendering of the prompt, transport to
    the remote model, normalisation of its text, validation of the
    normalised result by [check]. *)
Inductive layer_failure (prompt : result pystr)
    (generate : pystr -> result pystr) (check : pyval -> result pyval)
    : exn -> Prop :=
| rendering_failed c :
    prompt = Raise c -> layer_failure prompt generate check c
| transport_failed p c :
    prompt = Ok p -> generate p = Raise c ->
    layer_failure prompt generate check c
| normalization_failed p text c :
    prompt = Ok p -> generate p = Ok text ->
    normalize (VStr text) = Raise c ->
    layer_failure prompt generate check c
| validation_failed p text v c :
    prompt = Ok p -> generate p = Ok text ->
    normalize (VStr text) = Ok v -> check v = Raise c ->
    layer_failure prompt generate check c.

(** [e] is an InterviewAnalysisError whose message contains the message
    of [cause]. *)
Definition surfaces (cause e : exn) : Prop :=
  exn_class e = InterviewAnalysisError /\ embeds (exn_str cause) (exn_str e).

(** The shape shared by the two single operations. *)
Definition pipeline (prefix : pystr) (prompt : result pystr)
    (generate : pystr -> result pystr) (check : pyval -> result pyval)
    : result pyval :=
  rewrap prefix
    (final_prompt <- prompt ;;
     response <- _make_llm_call_async generate final_prompt ;;
     check response).

(** The score passes the check of [validate_score]. *)
Definition score_ok (db : unicode_db) (sv : pyval) : bool :=
  match py_float db sv with
  | Ok f => score_in_range f
  | Raise _ => false
  end.

(** With [fuel], no scanner runs out of fuel on a text it has fuel for,
    and each consumes at least one character of what it reads. *)
Definition enough_fuel (fuel : nat) : Prop :=
  (forall s,
      (2 * length s + 1 <= fuel)%nat ->
      scan_once fuel s <> OutOfFuel
      /\ forall v r, scan_once fuel s = Parsed v r -> (length r < length s)%nat)
  /\ (forall s acc,
         (2 * length s + 2 <= fuel)%nat ->
         parse_object fuel s acc <> OutOfFuel
         /\ forall v r, parse_object fuel s acc = Parsed v r ->
                        (length r < length s)%nat)
  /\ (forall s acc,
         (2 * length s + 2 <= fuel)%nat ->
         parse_array fuel s acc <> OutOfFuel
         /\ forall v r, parse_array fuel s acc = Parsed v r ->
                        (length r < length s)%nat).

Definition cap_s : char := chr "S".

(** The characters of a decimal literal. *)
Definition literal_char (c : char) : bool :=
  is_digit c || (c =? chr ".") || (c =? chr "e") || (c =? chr "E")
  || (c =? chr "+") || (c =? chr "-").

(** A character that a JSON string holds as it is, and that is no
    backtick. *)
Definition plain_char (c : char) : bool :=
  negb (c =? dquote)%N && negb (c =? backslash)%N && negb (c <=? 31)%N
  && negb (c =? chr "`")%N.

(** A JSON integer literal: an optional minus sign, then its digits. *)
Definition int_literal (neg : bool) (ds : pystr) : pystr :=
  (if neg then [chr "-"] else []) ++ ds.

(** The digits of a JSON integer literal: at least one, and no leading
    zero before another digit. *)
Definition int_digits (ds : pystr) : bool :=
  match ds with
  | [] => false
  | c :: t =>
      forallb is_digit ds
      && (negb (c =? chr "0")%N || (length t =? 0)%nat)
  end.

(** * Properties *)

Ltac run := vm_compute; reflexivity.

(** ** The built-ins on sample inputs *)

Example strip_example :
  strip (lit "  {} ") = lit "{}".
Proof. run. Qed.

Example replace_example :
  replace fence [] (replace fence_json [] (lit "```json{}```")) = lit "{}".
Proof. run. Qed.

Example index_example :
  find lbrace (lit "a{b}c}") = Some 1%nat
  /\ rfind rbrace (lit "a{b}c}") = Some 5%nat
  /\ brace_slice (lit "a{b}c}") = Some (lit "{b}c}").
Proof. repeat split; run. Qed.

Example loads_object :
  json_loads (jlit " {'a': [1, -2.5e1, true, null], 'b': {'c': 'x\u0041'}} ")
  = Some (VDict [(lit "a", VList [VInt 1;
                                   VFloat (float_of_decimal true 25 0);
                                   VBool true; VNone]);
                 (lit "b", VDict [(lit "c", VStr (lit "xA"))])]).
Proof. run. Qed.

Example loads_duplicate_key :
  json_loads (jlit "{'a': 1, 'b': 2, 'a': 3}")
  = Some (VDict [(lit "a", VInt 3); (lit "b", VInt 2)]).
Proof. run. Qed.

Example loads_refused :
  json_loads (jlit "{'a': 1,}") = None
  /\ json_loads (jlit "{'a': 1} x") = None
  /\ json_loads (jlit "{a: 1}") = None
  /\ json_loads (jlit "01") = None
  /\ json_loads [] = None.
Proof. repeat split; run. Qed.

Example loads_scalars :
  json_loads (lit "7") = Some (VInt 7)
  /\ json_loads (lit "7.5") = Some (VFloat (float_of_decimal false 75 (-1)))
  /\ json_loads (lit "NaN") = Some (VFloat nan)
  /\ json_loads (lit "1e400") = Some (VFloat (inf false)).
Proof. repeat split; run. Qed.

Example float_repr_examples :
  float_repr (float_of_decimal false 75 (-1)) = lit "7.5"
  /\ float_repr (float_of_decimal false 1 (-1)) = lit "0.1"
  /\ float_repr (float_of_Z 11) = lit "11.0"
  /\ float_repr (float_of_decimal false 1 22) = lit "1e+22"
  /\ float_repr (float_of_decimal true 1 (-5)) = lit "-1e-05".
Proof. repeat split; run. Qed.

Example float_examples :
  py_float ascii_db (VStr (lit " 7 ")) = Ok (float_of_Z 7)
  /\ py_float ascii_db (VStr (lit "1_0")) = Ok (float_of_Z 10)
  /\ py_float ascii_db (VStr (lit "-inf")) = Ok (inf true)
  /\ py_float ascii_db (VBool true) = Ok (float_of_Z 1)
  /\ py_float ascii_db (VStr (lit "high"))
     = Raise (Exn ValueError
                  (lit "could not convert string to float: 'high'"))
  /\ py_float ascii_db VNone
     = Raise (Exn TypeError
                  (lit "float() argument must be a string or a real number, not 'NoneType'")).
Proof. repeat split; run. Qed.

Example repr_example :
  py_repr ascii_db
    (VDict [(lit "question", VStr (lit "it's"));
            (lit "n", VList [VInt (-3); VNone; VBool false])])
  = lit "{'question': " ++ dquote :: lit "it's" ++ dquote
      :: lit ", 'n': [-3, None, False]}".
Proof. run. Qed.

(** ** Strings *)

Lemma startswith_app (p s : pystr) : startswith p (p ++ s) = true.
Proof.
  induction p as [|x p IH]; simpl; [reflexivity|].
  now rewrite N.eqb_refl, IH.
Qed.

Lemma find_char_skipn (c : char) (s : pystr) (i : nat) :
  find [c] s = Some i -> exists rest, skipn i s = c :: rest.
Proof.
  revert i; induction s as [|x s IH]; intros i; simpl.
  - discriminate.
  - destruct (N.eqb_spec c x) as [->|Hne]; simpl.
    + intros [= <-]. now exists s.
    + destruct (find [c] s) as [k|]; simpl; [|discriminate].
      intros [= <-]. simpl. now apply IH.
Qed.

Lemma find_char_app (c : char) (pre rest : pystr) :
  ~ In c pre -> find [c] (pre ++ c :: rest) = Some (length pre).
Proof.
  induction pre as [|x pre IH]; intros Hnin; simpl.
  - now rewrite N.eqb_refl.
  - destruct (N.eqb_spec c x) as [->|Hne]; simpl.
    + exfalso. apply Hnin. now left.
    + rewrite IH; [reflexivity|]. intros Hin. apply Hnin. now right.
Qed.

Lemma rfind_char_none (c : char) (s : pystr) :
  ~ In c s -> rfind [c] s = None.
Proof.
  induction s as [|x s IH]; intros Hnin; simpl; [reflexivity|].
  rewrite IH by (intros Hin; apply Hnin; now right).
  destruct (N.eqb_spec c x) as [->|Hne]; simpl; [|reflexivity].
  exfalso. apply Hnin. now left.
Qed.

Lemma rfind_char_app (c : char) (pre rest : pystr) :
  ~ In c rest -> rfind [c] (pre ++ c :: rest) = Some (length pre).
Proof.
  intros Hnin. induction pre as [|x pre IH]; simpl.
  - rewrite rfind_char_none by assumption. now rewrite N.eqb_refl.
  - now rewrite IH.
Qed.

Lemma lstrip_app (a b : pystr) (c : char) :
  isspace c = false -> lstrip (a ++ c :: b) = lstrip a ++ c :: b.
Proof.
  intros Hc. induction a as [|x a IH]; simpl.
  - now rewrite Hc.
  - destruct (isspace x); [exact IH | reflexivity].
Qed.

Lemma rstrip_app (a b : pystr) (c : char) :
  isspace c = false -> rstrip (a ++ c :: b) = a ++ c :: rstrip b.
Proof.
  intros Hc. unfold rstrip.
  rewrite rev_app_distr. simpl. rewrite <- app_assoc. simpl.
  rewrite lstrip_app by assumption.
  rewrite rev_app_distr. simpl. rewrite rev_involutive.
  now rewrite <- app_assoc.
Qed.

Lemma lstrip_incl (s : pystr) (x : char) : In x (lstrip s) -> In x s.
Proof.
  induction s as [|c s IH]; simpl; [tauto|].
  destruct (isspace c); simpl; [|tauto]. intros H. right. now apply IH.
Qed.

Lemma rstrip_incl (s : pystr) (x : char) : In x (rstrip s) -> In x s.
Proof.
  unfold rstrip. intros H. apply in_rev in H. apply lstrip_incl in H.
  now apply in_rev.
Qed.

(** ** The decoder *)

Ltac break_match H :=
  match type of H with
  | context [match ?x with _ => _ end] => destruct x eqn:?
  | context [if ?x then _ else _] => destruct x eqn:?
  end.

(** The members of an object always decode to a [dict]. *)
Lemma parse_object_dict (fuel : nat) :
  forall s acc v r,
    parse_object fuel s acc = Parsed v r -> exists d, v = VDict d.
Proof.
  induction fuel as [|fuel IH]; intros s acc v r H; [discriminate|].
  cbn [parse_object] in H.
  repeat (break_match H; try discriminate).
  - injection H as <- _. eauto.
  - eapply IH. exact H.
Qed.

(** A text that opens with a brace decodes to a [dict] or not at all. *)
Lemma json_loads_brace (t : pystr) (v : pyval) :
  json_loads (chr "{" :: t) = Some v -> exists d, v = VDict d.
Proof.
  unfold json_loads, scan_fuel.
  change (startswith [65279%N] (chr "{" :: t)) with false.
  change (skip_ws (chr "{" :: t)) with (chr "{" :: t).
  cbv iota. rewrite Nat.add_1_r.
  cbn [scan_once].
  change (chr "{" =? dquote)%N with false.
  change (chr "{" =? chr "{")%N with true.
  cbv iota.
  destruct (match skip_ws t with [] => _ | _ :: _ => _ end)
    as [a rest| |] eqn:E; try discriminate.
  intros H. destruct (skip_ws rest); [|discriminate].
  injection H as <-.
  repeat (break_match E; try discriminate).
  - injection E as <- _. eauto.
  - eapply parse_object_dict. exact E.
Qed.

(** *** Every scanner consumes what it reads *)

Lemma skip_ws_length (s : pystr) : (length (skip_ws s) <= length s)%nat.
Proof.
  induction s as [|c s IH]; simpl; [lia|].
  destruct (is_json_ws c); simpl; lia.
Qed.

Lemma push_inv (c : char) (o : option (pystr * pystr)) (b r : pystr) :
  push c o = Some (b, r) -> exists b', o = Some (b', r).
Proof.
  destruct o as [[b' r']|]; simpl; [|discriminate].
  intros [= _ <-]. eauto.
Qed.

Lemma scanstring_length (n : nat) :
  forall s b r,
    (length s <= n)%nat -> scanstring s = Some (b, r) ->
    (length r < length s)%nat.
Proof.
  induction n as [|n IH]; intros s b r Hlen H.
  - destruct s; [discriminate | simpl in Hlen; lia].
  - destruct s as [|c t]; [discriminate|].
    cbn [scanstring] in H.
    repeat (break_match H; try discriminate);
      try (apply push_inv in H; destruct H as [b' H];
           apply IH in H; simpl in *; lia).
    injection H as _ <-. simpl. lia.
Qed.

Lemma span_digits_length (s ds r : pystr) :
  span_digits s = (ds, r) -> (length r <= length s)%nat.
Proof.
  revert ds r; induction s as [|c s IH]; intros ds r; simpl.
  - intros [= _ <-]. simpl. lia.
  - destruct (is_digit c).
    + destruct (span_digits s) as [ds' r'] eqn:E. intros [= _ <-].
      specialize (IH _ _ eq_refl). lia.
    + intros [= _ <-]. simpl. lia.
Qed.

Lemma match_int_part_length (s ip r : pystr) :
  match_int_part s = Some (ip, r) -> (length r < length s)%nat.
Proof.
  unfold match_int_part. destruct s as [|c t]; [discriminate|].
  destruct (c =? chr "0")%N.
  - intros [= _ <-]. simpl. lia.
  - destruct (is_digit c); [|discriminate].
    destruct (span_digits t) as [ds r'] eqn:E. intros [= _ <-].
    apply span_digits_length in E. simpl. lia.
Qed.

Lemma match_frac_length (s : pystr) (fr : option pystr) (r : pystr) :
  match_frac s = (fr, r) -> (length r <= length s)%nat.
Proof.
  unfold match_frac. intros H.
  repeat (break_match H; try discriminate);
    try (injection H as Ha Hb; subst r; simpl; lia).
  injection H as Ha Hb; subst r.
  match goal with E : span_digits _ = _ |- _ =>
    apply span_digits_length in E; simpl in *; lia end.
Qed.

Lemma match_exp_length (s : pystr) (ex : option Z) (r : pystr) :
  match_exp s = (ex, r) -> (length r <= length s)%nat.
Proof.
  unfold match_exp. intros H.
  repeat (break_match H; try discriminate);
    repeat match goal with
           | E : (_, _) = (_, _) |- _ => injection E as ? ?; subst
           end;
    try (simpl; lia).
  match goal with E : span_digits _ = _ |- _ =>
    apply span_digits_length in E end.
  match goal with E : _ = (_, _) |- _ =>
    repeat (break_match E; try discriminate);
      injection E as ? ?; subst; simpl in *; lia
  end.
Qed.

Lemma match_number_length (s : pystr) (v : pyval) (r : pystr) :
  match_number s = Some (v, r) -> (length r < length s)%nat.
Proof.
  unfold match_number. intros H.
  destruct (match s with
            | [] => (false, s)
            | c :: t => if (c =? chr "-")%N then (true, t) else (false, s)
            end) as [neg s1] eqn:E1.
  assert (Hs1 : (length s1 <= length s)%nat).
  { destruct s as [|c t]; [injection E1 as Ha Hb; subst s1; lia|].
    destruct (c =? chr "-")%N; injection E1 as Ha Hb; subst s1; simpl; lia. }
  destruct (match_int_part s1) as [[ip s2]|] eqn:E2; [|discriminate].
  destruct (match_frac s2) as [fr s3] eqn:E3.
  destruct (match_exp s3) as [ex s4] eqn:E4.
  injection H as Ha Hb; subst r.
  apply match_int_part_length in E2. apply match_frac_length in E3.
  apply match_exp_length in E4. lia.
Qed.

Ltac length_facts :=
  repeat match goal with
         | E : scanstring ?t = Some (_, _) |- _ =>
             apply (@scanstring_length (length t) t _ _ (le_n _)) in E
         | E : skip_ws ?t = _ |- _ =>
             let F := fresh "F" in
             pose proof (skip_ws_length t) as F; rewrite E in F; clear E
         | E : match_number _ = Some (_, _) |- _ =>
             apply match_number_length in E
         end;
  repeat match goal with
         | H : context [skip_ws ?x] |- _ =>
             lazymatch goal with
             | _ : (length (skip_ws x) <= length x)%nat |- _ => fail
             | _ => pose proof (skip_ws_length x)
             end
         end.

(** *** The fuel of [json_loads] is never exhausted *)

Lemma scan_fuel_enough (fuel : nat) : enough_fuel fuel.
Proof.
  induction fuel as [|fuel (IHs & IHo & IHa)].
  - repeat split; intros; simpl in *; try lia.
  - assert (Hs : forall x res, scan_once fuel x = res ->
                 (2 * length x + 1 <= fuel)%nat ->
                 res <> OutOfFuel
                 /\ forall v r, res = Parsed v r -> (length r < length x)%nat).
    { intros x res <- Hx. now apply IHs. }
    assert (Ho : forall x acc res, parse_object fuel x acc = res ->
                 (2 * length x + 2 <= fuel)%nat ->
                 res <> OutOfFuel
                 /\ forall v r, res = Parsed v r -> (length r < length x)%nat).
    { intros x acc res <- Hx. now apply IHo. }
    assert (Ha : forall x acc res, parse_array fuel x acc = res ->
                 (2 * length x + 2 <= fuel)%nat ->
                 res <> OutOfFuel
                 /\ forall v r, res = Parsed v r -> (length r < length x)%nat).
    { intros x acc res <- Hx. now apply IHa. }
    clear IHs IHo IHa.
    repeat split.
    + (* scan_once never runs out *)
      destruct s as [|c t]; [discriminate|].
      intros R. cbn [scan_once] in R.
      repeat (break_match R; try discriminate); length_facts.
      * apply Ho in R; [tauto | simpl in *; lia].
      * apply Ha in R; [tauto | simpl in *; lia].
    + (* scan_once consumes *)
      destruct s as [|c t]; intros v r R.
      { destruct fuel; discriminate. }
      cbn [scan_once] in R.
      repeat (break_match R; try discriminate);
        length_facts;
        try (match type of R with
             | Parsed _ ?x = Parsed _ ?y =>
                 assert (Hr : y = x) by congruence; rewrite Hr
             end;
             rewrite ?length_skipn; cbn [length] in *; lia).
      * apply Ho in R; [|simpl in *; lia].
        destruct R as [_ R]. specialize (R _ _ eq_refl). simpl in *. lia.
      * apply Ha in R; [|simpl in *; lia].
        destruct R as [_ R]. specialize (R _ _ eq_refl). simpl in *. lia.
    + (* parse_object never runs out *)
      intros R. cbn [parse_object] in R.
      repeat (break_match R; try discriminate); length_facts;
        repeat match goal with
               | E : scan_once fuel _ = Parsed _ _ |- _ =>
                   apply Hs in E; [|cbn [length] in *; lia];
                   destruct E as [_ E]; specialize (E _ _ eq_refl)
               end.
      * apply Ho in R; [tauto | cbn [length] in *; lia].
      * match goal with E : scan_once fuel _ = OutOfFuel |- _ =>
          apply Hs in E; [tauto | cbn [length] in *; lia] end.
    + (* parse_object consumes *)
      intros v r R. cbn [parse_object] in R.
      repeat (break_match R; try discriminate); length_facts;
        repeat match goal with
               | E : scan_once fuel _ = Parsed _ _ |- _ =>
                   apply Hs in E; [|cbn [length] in *; lia];
                   destruct E as [_ E]; specialize (E _ _ eq_refl)
               end.
      * match type of R with
        | Parsed _ ?x = Parsed _ _ => assert (Hr : r = x) by congruence
        end.
        subst r. cbn [length] in *. lia.
      * apply Ho in R; [|cbn [length] in *; lia].
        destruct R as [_ R]. specialize (R _ _ eq_refl).
        cbn [length] in *. lia.
    + (* parse_array never runs out *)
      intros R. cbn [parse_array] in R.
      repeat (break_match R; try discriminate); length_facts;
        repeat match goal with
               | E : scan_once fuel _ = Parsed _ _ |- _ =>
                   apply Hs in E; [|cbn [length] in *; lia];
                   destruct E as [_ E]; specialize (E _ _ eq_refl)
               end.
      * apply Ha in R; [tauto | cbn [length] in *; lia].
      * match goal with E : scan_once fuel _ = OutOfFuel |- _ =>
          apply Hs in E; [tauto | cbn [length] in *; lia] end.
    + (* parse_array consumes *)
      intros v r R. cbn [parse_array] in R.
      repeat (break_match R; try discriminate); length_facts;
        repeat match goal with
               | E : scan_once fuel _ = Parsed _ _ |- _ =>
                   apply Hs in E; [|cbn [length] in *; lia];
                   destruct E as [_ E]; specialize (E _ _ eq_refl)
               end.
      * match type of R with
        | Parsed _ ?x = Parsed _ _ => assert (Hr : r = x) by congruence
        end.
        subst r. cbn [length] in *. lia.
      * apply Ha in R; [|cbn [length] in *; lia].
        destruct R as [_ R]. specialize (R _ _ eq_refl).
        cbn [length] in *. lia.
Qed.

Corollary json_loads_fuel (s : pystr) :
  scan_once (scan_fuel s) (skip_ws s) <> OutOfFuel.
Proof.
  destruct (scan_fuel_enough (scan_fuel s)) as [Hs _].
  apply Hs. unfold scan_fuel. pose proof (skip_ws_length s). lia.
Qed.

(** ** The normaliser *)

(** The text between the first opening and the last closing brace is
    empty or opens with a brace. *)
Lemma brace_slice_head (s js : pystr) :
  brace_slice s = Some js -> js = [] \/ exists t, js = chr "{" :: t.
Proof.
  unfold brace_slice.
  destruct (find lbrace s) as [i|] eqn:Ei; [|discriminate].
  destruct (rfind rbrace s) as [j|]; [|discriminate].
  intros [= <-].
  apply find_char_skipn in Ei. destruct Ei as [rest Ei].
  unfold slice. rewrite Ei.
  destruct (j + 1 - i)%nat; simpl; eauto.
Qed.

Lemma brace_slice_loads (s js : pystr) (v : pyval) :
  brace_slice s = Some js -> json_loads js = Some v -> exists d, v = VDict d.
Proof.
  intros Hs Hv. apply brace_slice_head in Hs. destruct Hs as [->|[t ->]].
  - discriminate.
  - eapply json_loads_brace. exact Hv.
Qed.

Lemma parse_json_response_shape (raw : pyval) :
  parse_json_response raw = VNone
  \/ exists d, parse_json_response raw = VDict d.
Proof.
  destruct raw; simpl; auto.
  destruct (contains lbrace _ && contains rbrace _); auto.
  destruct (brace_slice _) as [js|] eqn:Es; auto.
  destruct (json_loads js) as [v|] eqn:Ev; auto.
  destruct (brace_slice_loads _ Es Ev) as [d ->]. eauto.
Qed.

(** C2. For every input, the normaliser ([parse_json_response] followed by
    [_safe_json_parse]) either returns a mapping or fails with the
    InterviewAnalysisError "LLM returned None instead of valid JSON"; it
    never returns a list, a scalar or [None]. *)
Theorem normalize_mapping_or_malformed (raw : pyval) :
  (exists d, normalize raw = Ok (VDict d))
  \/ normalize raw
     = Raise (Exn InterviewAnalysisError
                  (lit "LLM returned None instead of valid JSON")).
Proof.
  unfold normalize.
  destruct (parse_json_response_shape raw) as [->|[d ->]]; simpl; eauto.
Qed.

(** *** [replace] around a protected middle part *)

Lemma startswith_cut (old x y : pystr) (c : char) :
  ~ In c old -> startswith old (x ++ c :: y) = startswith old x.
Proof.
  revert x; induction old as [|a old IH]; intros x Hc; [reflexivity|].
  destruct x as [|b x]; simpl.
  - destruct (N.eqb_spec a c) as [->|]; [|reflexivity].
    exfalso. apply Hc. now left.
  - rewrite IH; [reflexivity|]. intros Hin. apply Hc. now right.
Qed.

Lemma startswith_length (p s : pystr) :
  startswith p s = true -> (length p <= length s)%nat.
Proof.
  revert s; induction p as [|a p IH]; intros [|b s]; simpl;
    try lia; try discriminate.
  intros H. apply andb_true_iff in H. destruct H as [_ H].
  apply IH in H. lia.
Qed.

Lemma startswith_prefix (p q s : pystr) :
  startswith (p ++ q) s = true -> startswith p s = true.
Proof.
  revert s; induction p as [|a p IH]; intros s; simpl; [reflexivity|].
  destruct s as [|b s]; [discriminate|].
  intros H. apply andb_true_iff in H. destruct H as [-> H].
  now apply IH.
Qed.

Lemma replace_from_app (old new a b : pystr) (c : char) :
  ~ In c old ->
  forall k, (k <= length a)%nat ->
    replace_from old new k (a ++ c :: b)
    = replace_from old new k a ++ replace_from old new 0 (c :: b).
Proof.
  intros Hc. induction a as [|x a IH]; intros k Hk.
  - simpl in Hk. now replace k with O by lia.
  - destruct k as [|k].
    + cbn [replace_from app].
      change (x :: a ++ c :: b) with ((x :: a) ++ c :: b).
      rewrite startswith_cut by assumption.
      destruct (startswith old (x :: a)) eqn:E.
      * apply startswith_length in E. simpl in E.
        rewrite IH by lia. now rewrite app_assoc.
      * rewrite IH by lia. reflexivity.
    + cbn [replace_from app]. apply IH. simpl in Hk. lia.
Qed.

Lemma find_none_cons (old : pystr) (x : char) (t : pystr) :
  find old (x :: t) = None ->
  startswith old (x :: t) = false /\ find old t = None.
Proof.
  cbn [find]. destruct (startswith old (x :: t)); [discriminate|].
  destruct (find old t); [discriminate|]. auto.
Qed.

Lemma startswith_extend (old l b : pystr) :
  startswith old l = true -> startswith old (l ++ b) = true.
Proof.
  revert l; induction old as [|o old IH]; intros [|y l]; simpl;
    try discriminate; try reflexivity.
  intros H. apply andb_true_iff in H. destruct H as [-> H].
  now apply IH.
Qed.

Lemma find_none_prefix (old a b : pystr) :
  find old (a ++ b) = None -> find old a = None.
Proof.
  induction a as [|x a IH]; intros H.
  - destruct old as [|o old]; [|reflexivity].
    destruct b; discriminate.
  - rewrite <- app_comm_cons in H.
    apply find_none_cons in H. destruct H as [Hs Hf].
    cbn [find]. rewrite IH by assumption.
    destruct (startswith old (x :: a)) eqn:E; [|reflexivity].
    apply (startswith_extend _ _ b) in E.
    rewrite <- app_comm_cons in E. rewrite E in Hs. discriminate.
Qed.

Lemma replace_from_none (old new a : pystr) :
  find old a = None -> replace_from old new 0 a = a.
Proof.
  induction a as [|x a IH]; intros H; [reflexivity|].
  apply find_none_cons in H. destruct H as [Hs Hf].
  cbn [replace_from]. rewrite Hs. now rewrite IH.
Qed.

Lemma replace_from_incl (old : pystr) (x : char) (s : pystr) :
  forall k, In x (replace_from old [] k s) -> In x s.
Proof.
  induction s as [|c s IH]; intros k; [simpl; tauto|].
  destruct k as [|k]; cbn [replace_from].
  - destruct (startswith old (c :: s)); simpl.
    + intros H. right. eapply IH. exact H.
    + intros [->|H]; [now left|]. right. eapply IH. exact H.
  - intros H. right. eapply IH. exact H.
Qed.

(** A brace-delimited middle part in which [old] does not occur goes
    through [replace(old, "")] unchanged, whatever surrounds it. *)
Lemma replace_sandwich (old p mid s : pystr) :
  old <> [] -> ~ In (chr "{") old -> ~ In (chr "}") old ->
  find old (chr "{" :: mid ++ [chr "}"]) = None ->
  replace old [] (p ++ chr "{" :: mid ++ chr "}" :: s)
  = replace old [] p ++ chr "{" :: mid ++ chr "}" :: replace old [] s.
Proof.
  intros Hne Hl Hr Hf.
  destruct old as [|o old]; [congruence|]. unfold replace.
  rewrite replace_from_app by (assumption || lia).
  apply find_none_cons in Hf. destruct Hf as [_ Hf].
  apply find_none_prefix in Hf.
  f_equal.
  assert (Hhead : forall c t, ~ In c (o :: old) ->
            replace_from (o :: old) [] 0 (c :: t)
            = c :: replace_from (o :: old) [] 0 t).
  { intros c t Hc. cbn [replace_from].
    change (c :: t) with ([] ++ c :: t).
    rewrite startswith_cut by assumption. reflexivity. }
  rewrite Hhead by assumption. f_equal.
  rewrite replace_from_app by (assumption || lia).
  rewrite replace_from_none by assumption.
  now rewrite Hhead by assumption.
Qed.

Lemma replace_incl (old : pystr) (x : char) (s : pystr) :
  old <> [] -> In x (replace old [] s) -> In x s.
Proof.
  destruct old as [|o old]; [congruence|]. intros _.
  apply replace_from_incl.
Qed.

Lemma find_none_longer (old q s : pystr) :
  find old s = None -> find (old ++ q) s = None.
Proof.
  induction s as [|x s IH]; intros H.
  - destruct old; [discriminate | reflexivity].
  - apply find_none_cons in H. destruct H as [Hs Hf].
    cbn [find]. rewrite IH by assumption.
    destruct (startswith (old ++ q) (x :: s)) eqn:E; [|reflexivity].
    apply startswith_prefix in E. congruence.
Qed.

Lemma not_in_fence (c : char) :
  c = chr "{" \/ c = chr "}" -> ~ In c fence_json /\ ~ In c fence.
Proof.
  intros [->| ->]; split; intros H; simpl in H;
    repeat (destruct H as [H|H]; [discriminate|]); exact H.
Qed.

Lemma slice_middle (a m b : pystr) :
  slice (a ++ m ++ b) (length a) (length a + length m) = m.
Proof.
  unfold slice. rewrite skipn_app, skipn_all, Nat.sub_diag. simpl.
  replace (length a + length m - length a)%nat with (length m) by lia.
  rewrite firstn_app, firstn_all, Nat.sub_diag. simpl. apply app_nil_r.
Qed.

(** What [parse_json_response] cuts out of a text whose first opening
    brace and last closing brace delimit [{mid}]. *)
Lemma brace_slice_sandwich (a mid b : pystr) :
  ~ In (chr "{") a -> ~ In (chr "}") b ->
  brace_slice (a ++ chr "{" :: mid ++ chr "}" :: b)
  = Some (chr "{" :: mid ++ [chr "}"]).
Proof.
  intros Ha Hb. unfold brace_slice, lbrace, rbrace.
  change (lit "{") with [chr "{"]. change (lit "}") with [chr "}"].
  rewrite find_char_app by assumption.
  replace (a ++ chr "{" :: mid ++ chr "}" :: b)
    with ((a ++ chr "{" :: mid) ++ chr "}" :: b)
    by (rewrite <- app_assoc; reflexivity).
  rewrite rfind_char_app by assumption.
  f_equal.
  replace ((a ++ chr "{" :: mid) ++ chr "}" :: b)
    with (a ++ (chr "{" :: mid ++ [chr "}"]) ++ b)
    by (rewrite <- !app_assoc; simpl; rewrite <- app_assoc; reflexivity).
  replace (length (a ++ chr "{" :: mid) + 1)%nat
    with (length a + length (chr "{" :: mid ++ [chr "}"]))%nat
    by (rewrite !length_app; simpl; rewrite length_app; simpl; lia).
  apply slice_middle.
Qed.

(** The cleaning steps of [parse_json_response] on a text of the form
    [p ++ {mid} ++ s]. *)
Lemma clean_sandwich (p mid s : pystr) :
  find fence (chr "{" :: mid ++ [chr "}"]) = None ->
  exists a b,
    strip (replace fence [] (replace fence_json [] (p ++ chr "{" :: mid ++ chr "}" :: s)))
    = a ++ chr "{" :: mid ++ chr "}" :: b
    /\ (forall x, In x a -> In x p) /\ (forall x, In x b -> In x s).
Proof.
  intros Hf.
  destruct (not_in_fence (or_introl (eq_refl (chr "{")))) as [Hl1 Hl2].
  destruct (not_in_fence (or_intror (eq_refl (chr "}")))) as [Hr1 Hr2].
  rewrite replace_sandwich; try assumption; try discriminate.
  2:{ change fence_json with (fence ++ lit "json").
      now apply find_none_longer. }
  rewrite replace_sandwich; try assumption; try discriminate.
  set (P := replace fence [] (replace fence_json [] p)).
  set (S' := replace fence [] (replace fence_json [] s)).
  exists (lstrip P), (rstrip S'). split; [|split].
  - unfold strip. rewrite lstrip_app by reflexivity.
    replace (lstrip P ++ chr "{" :: mid ++ chr "}" :: S')
      with ((lstrip P ++ chr "{" :: mid) ++ chr "}" :: S')
      by (rewrite <- app_assoc; reflexivity).
    rewrite rstrip_app by reflexivity.
    rewrite <- app_assoc. reflexivity.
  - intros x Hx. apply lstrip_incl in Hx.
    apply replace_incl in Hx; [|discriminate].
    apply replace_incl in Hx; [assumption|discriminate].
  - intros x Hx. apply rstrip_incl in Hx.
    apply replace_incl in Hx; [|discriminate].
    apply replace_incl in Hx; [assumption|discriminate].
Qed.

Lemma contains_char_app (c : char) (a b : pystr) :
  contains [c] (a ++ c :: b) = true.
Proof.
  unfold contains. induction a as [|x a IH]; simpl.
  - now rewrite N.eqb_refl.
  - destruct ((c =? x)%N && true); [reflexivity|].
    destruct (find [c] (a ++ c :: b)); [reflexivity | discriminate].
Qed.

(** [parse_json_response] on prose, then a brace-delimited text without
    fence marker, then prose: the prose before has no opening brace and
    the prose after no closing brace. *)
Lemma parse_json_response_sandwich (p mid s : pystr) :
  ~ In (chr "{") p -> ~ In (chr "}") s ->
  find fence (chr "{" :: mid ++ [chr "}"]) = None ->
  parse_json_response (VStr (p ++ (chr "{" :: mid ++ [chr "}"]) ++ s))
  = match json_loads (chr "{" :: mid ++ [chr "}"]) with
    | Some v => v
    | None => VNone
    end.
Proof.
  intros Hp Hs Hf.
  replace (p ++ (chr "{" :: mid ++ [chr "}"]) ++ s)
    with (p ++ chr "{" :: mid ++ chr "}" :: s)
    by (simpl; rewrite <- app_assoc; reflexivity).
  unfold parse_json_response.
  destruct (@clean_sandwich p mid s Hf) as (a & b & -> & Ha & Hb).
  unfold lbrace, rbrace.
  change (lit "{") with [chr "{"]. change (lit "}") with [chr "}"].
  rewrite contains_char_app.
  replace (a ++ chr "{" :: mid ++ chr "}" :: b)
    with ((a ++ chr "{" :: mid) ++ chr "}" :: b) at 1
    by (rewrite <- app_assoc; reflexivity).
  rewrite contains_char_app. cbn [andb].
  fold lbrace. fold rbrace.
  rewrite brace_slice_sandwich by (intros H; auto).
  reflexivity.
Qed.

Ltac not_in_text :=
  let H := fresh in
  intros H; simpl in H;
  repeat (destruct H as [H|H]; [discriminate|]); exact H.

(** C3 (amended). For every text of the form [p ++ j ++ s] in which [j]
    is a brace-delimited JSON object text without triple backtick, the
    prose [p] before it (fence markers and white space included) has no
    opening brace and the prose [s] after it has no closing brace, the
    normaliser recovers exactly the object that a direct parse of [j]
    gives. *)
Theorem normalize_recovers_object (p mid s : pystr) (o : dict) :
  let j := chr "{" :: mid ++ [chr "}"] in
  json_loads j = Some (VDict o) ->
  contains fence j = false ->
  ~ In (chr "{") p ->
  ~ In (chr "}") s ->
  normalize (VStr (p ++ j ++ s)) = Ok (VDict o).
Proof.
  intros j Hj Hfence Hp Hs. unfold normalize. subst j.
  rewrite parse_json_response_sandwich; try assumption.
  - now rewrite Hj.
  - unfold contains in Hfence.
    destruct (find fence _); [discriminate | reflexivity].
Qed.

Lemma normalize_recovers_object_witness :
  json_loads (chr "{" :: object_body ++ [chr "}"])
  = Some (VDict [(lit "feedback", VStr (lit "clear answer"));
                 (lit "score", VInt 7)])
  /\ normalize
       (VStr (prose_before ++ (chr "{" :: object_body ++ [chr "}"])
                ++ prose_after))
     = Ok (VDict [(lit "feedback", VStr (lit "clear answer"));
                  (lit "score", VInt 7)]).
Proof.
  assert (Hj : json_loads (chr "{" :: object_body ++ [chr "}"])
               = Some (VDict [(lit "feedback", VStr (lit "clear answer"));
                              (lit "score", VInt 7)]))
    by (vm_compute; reflexivity).
  split; [exact Hj|].
  apply (@normalize_recovers_object prose_before object_body prose_after _ Hj).
  - vm_compute; reflexivity.
  - unfold prose_before. not_in_text.
  - unfold prose_after. not_in_text.
Defined.

(** C3 as stated fails in two ways.  Prose with a brace of its own moves
    the cut, and the text no longer parses; a triple backtick inside a
    JSON string is removed with the fence markers, and the object
    changes. *)
Lemma wrapped_object_not_recovered :
  (json_loads (jlit "{'score': 7}") = Some (VDict [(lit "score", VInt 7)])
   /\ normalize (VStr (lit "Use {} for objects: " ++ jlit "{'score': 7}"))
      = Raise (Exn InterviewAnalysisError
                   (lit "LLM returned None instead of valid JSON")))
  /\ (json_loads (jlit "{'feedback': 'use ``` fences'}")
      = Some (VDict [(lit "feedback", VStr (lit "use ``` fences"))])
      /\ normalize (VStr (jlit "{'feedback': 'use ``` fences'}"))
         = Ok (VDict [(lit "feedback", VStr (lit "use  fences"))])
      /\ normalize (VStr (jlit "{'feedback': 'use ``` fences'}"))
         <> Ok (VDict [(lit "feedback", VStr (lit "use ``` fences"))])).
Proof.
  repeat split; try (vm_compute; reflexivity).
  vm_compute. discriminate.
Qed.

(** ** The text of a score that [float] accepts

    Such a text has no capital S, so the words "Score out of range"
    cannot come from the score itself. *)

Local Open Scope N_scope.

Lemma in_firstn (x : char) (n : nat) (l : pystr) : In x (firstn n l) -> In x l.
Proof.
  intros H. rewrite <- (firstn_skipn n l). apply in_or_app. now left.
Qed.

Lemma in_skipn (x : char) (n : nat) (l : pystr) : In x (skipn n l) -> In x l.
Proof.
  intros H. rewrite <- (firstn_skipn n l). apply in_or_app. now right.
Qed.

Lemma digits_of_no_s (fuel : nat) :
  forall n acc, ~ In cap_s acc -> ~ In cap_s (digits_of fuel n acc).
Proof.
  induction fuel as [|fuel IH]; intros n acc Hacc; [exact Hacc|].
  cbn [digits_of].
  assert (Hd : ~ In cap_s ((Z.to_N (n mod 10) + 48) :: acc)).
  { intros [H|H]; [|contradiction].
    pose proof (Z.mod_pos_bound n 10 eq_refl) as Hb.
    unfold cap_s in H. change (chr "S") with 83 in H. lia. }
  destruct (n <? 10)%Z; [exact Hd | now apply IH].
Qed.

Lemma decimal_no_s (n : Z) : ~ In cap_s (decimal n).
Proof. apply digits_of_no_s. intros []. Qed.

Lemma int_str_no_s (z : Z) : ~ In cap_s (int_str z).
Proof.
  unfold int_str. destruct (z <? 0)%Z; [|apply decimal_no_s].
  intros [H|H]; [discriminate|]. revert H. apply decimal_no_s.
Qed.

Lemma zeros_no_s (n : Z) : ~ In cap_s (zeros n).
Proof. intros H. apply repeat_spec in H. discriminate. Qed.

Lemma format_short_no_s (ds : pystr) (decpt : Z) :
  ~ In cap_s ds -> ~ In cap_s (format_short ds decpt).
Proof.
  intros Hds. unfold format_short.
  destruct ((decpt <=? -4)%Z || (16 <? decpt)%Z).
  - intros H. apply in_app_or in H. destruct H as [H|H].
    + destruct ds as [|d [|d' rest]]; simpl in H; try tauto.
      * destruct H as [H|[]]. apply Hds. now left.
      * destruct H as [H|[H|H]]; [|discriminate|].
        -- apply Hds. now left.
        -- apply Hds. now right.
    + destruct H as [H|[H|H]]; [discriminate| |].
      * destruct (decpt - 1 <? 0)%Z; discriminate.
      * destruct (Z.abs (decpt - 1) <? 10)%Z.
        -- destruct H as [H|H]; [discriminate|].
           revert H. apply decimal_no_s.
        -- revert H. apply decimal_no_s.
  - destruct (decpt <=? 0)%Z.
    + intros H. apply in_app_or in H. destruct H as [H|H].
      * simpl in H. repeat (destruct H as [H|H]; [discriminate|]). exact H.
      * apply in_app_or in H. destruct H as [H|H]; [|tauto].
        revert H. apply zeros_no_s.
    + destruct (Z.of_nat (length ds) <=? decpt)%Z.
      * intros H. apply in_app_or in H. destruct H as [H|H]; [tauto|].
        apply in_app_or in H. destruct H as [H|H].
        -- revert H. apply zeros_no_s.
        -- simpl in H. repeat (destruct H as [H|H]; [discriminate|]). exact H.
      * intros H. apply in_app_or in H. destruct H as [H|[H|H]].
        -- apply Hds. eapply in_firstn. exact H.
        -- discriminate.
        -- apply Hds. eapply in_skipn. exact H.
Qed.

Lemma float_repr_no_s (x : float) : ~ In cap_s (float_repr x).
Proof.
  destruct x as [s|s| |s m e]; cbn [float_repr].
  - destruct s; not_in_text.
  - destruct s; not_in_text.
  - not_in_text.
  - destruct (if (0 <=? e)%Z then _ else _) as [num den].
    destruct (shortest_from _ _ _ _ _ _) as [c0 k0].
    destruct (strip_zeros _ _ _) as [c k].
    intros H. apply in_app_or in H. destruct H as [H|H].
    + destruct s; simpl in H; [destruct H as [H|[]]; discriminate | tauto].
    + revert H. apply format_short_no_s, decimal_no_s.
Qed.

Lemma is_digit_literal (c : char) : is_digit c = true -> literal_char c = true.
Proof. unfold literal_char. now intros ->. Qed.

Lemma span_digits_literal (s ds r : pystr) :
  span_digits s = (ds, r) ->
  forallb literal_char s = forallb literal_char r.
Proof.
  revert ds r; induction s as [|c s IH]; intros ds r; cbn [span_digits].
  - now intros [= _ <-].
  - destruct (is_digit c) eqn:Ec.
    + destruct (span_digits s) as [ds' r'] eqn:E. intros [= _ <-].
      cbn [forallb]. rewrite (is_digit_literal _ Ec). cbn [andb].
      eapply IH. reflexivity.
    + now intros [= _ <-].
Qed.

Lemma match_exp_literal (s : pystr) (ex : option Z) (r : pystr) :
  match_exp s = (ex, r) ->
  forallb literal_char s = forallb literal_char r.
Proof.
  unfold match_exp. destruct s as [|e t]; [now intros [= _ <-]|].
  destruct ((e =? chr "e") || (e =? chr "E")) eqn:Ee;
    [|now intros [= _ <-]].
  assert (He : literal_char e = true).
  { unfold literal_char. apply orb_true_iff in Ee.
    destruct Ee as [->| ->]; now rewrite ?orb_true_r. }
  destruct (match t with
            | [] => (false, t)
            | sg :: u =>
                if sg =? chr "-" then (true, u)
                else if sg =? chr "+" then (false, u) else (false, t)
            end) as [neg t'] eqn:Et.
  assert (Ht : forallb literal_char t = forallb literal_char t').
  { destruct t as [|sg u]; [now injection Et as _ <-|].
    destruct (N.eqb_spec sg (chr "-")) as [->|_];
      [now injection Et as _ <-|].
    destruct (N.eqb_spec sg (chr "+")) as [->|_];
      now injection Et as _ <-. }
  destruct (span_digits t') as [ds r'] eqn:Es.
  apply span_digits_literal in Es.
  destruct ds; intros [= _ <-]; [reflexivity|].
  cbn [forallb]. rewrite He. cbn [andb]. congruence.
Qed.

Lemma parse_decimal_literal (neg : bool) (s : pystr) (f : float) :
  parse_decimal neg s = Some f -> forallb literal_char s = true.
Proof.
  unfold parse_decimal.
  destruct (span_digits s) as [ip s1] eqn:E1.
  apply span_digits_literal in E1. rewrite E1.
  destruct (match s1 with
            | [] => ([], s1)
            | dot :: t => if dot =? chr "." then span_digits t else ([], s1)
            end) as [fr s2] eqn:E2.
  assert (H12 : forallb literal_char s1 = forallb literal_char s2).
  { destruct s1 as [|dot t]; [now injection E2 as _ <-|].
    destruct (N.eqb_spec dot (chr ".")) as [->|_];
      [|now injection E2 as _ <-].
    apply span_digits_literal in E2. exact E2. }
  rewrite H12.
  destruct (ip ++ fr); [discriminate|].
  destruct (match_exp s2) as [ex s3] eqn:E3.
  apply match_exp_literal in E3. rewrite E3.
  destruct s3; [reflexivity | discriminate].
Qed.

Lemma str_eqb_eq (a b : pystr) : str_eqb a b = true -> a = b.
Proof.
  revert b; induction a as [|x a IH]; intros [|y b]; simpl;
    try discriminate; try reflexivity.
  intros H. apply andb_true_iff in H. destruct H as [Hx H].
  apply N.eqb_eq in Hx. subst. f_equal. now apply IH.
Qed.

Lemma parse_float_literal_no_s (s : pystr) (f : float) :
  parse_float_literal s = Some f -> ~ In cap_s s.
Proof.
  unfold parse_float_literal.
  destruct (match s with
            | [] => (false, s)
            | c :: t =>
                if c =? chr "-" then (true, t)
                else if c =? chr "+" then (false, t) else (false, s)
            end) as [neg body] eqn:Eb.
  intros H.
  assert (Hbody : ~ In cap_s body).
  { destruct (parse_decimal neg body) as [g|] eqn:Ed.
    - apply parse_decimal_literal in Ed. intros Hin.
      rewrite forallb_forall in Ed. apply Ed in Hin. discriminate.
    - unfold parse_inf_or_nan in H. intros Hin.
      apply (in_map lower) in Hin.
      destruct (str_eqb (map lower body) (lit "inf")
                || str_eqb (map lower body) (lit "infinity")) eqn:Ei.
      + apply orb_true_iff in Ei.
        destruct Ei as [Ei|Ei]; apply str_eqb_eq in Ei; rewrite Ei in Hin;
          revert Hin; not_in_text.
      + destruct (str_eqb (map lower body) (lit "nan")) eqn:En;
          [|discriminate].
        apply str_eqb_eq in En. rewrite En in Hin. revert Hin. not_in_text. }
  destruct s as [|c t]; [intros []|].
  destruct (N.eqb_spec c (chr "-")) as [->|_].
  { injection Eb as _ <-. intros [Hc|Hc]; [discriminate | contradiction]. }
  destruct (N.eqb_spec c (chr "+")) as [->|_].
  { injection Eb as _ <-. intros [Hc|Hc]; [discriminate | contradiction]. }
  now injection Eb as _ <-.
Qed.

Lemma lstrip_ascii_keeps (x : char) (s : pystr) :
  is_ascii_space x = false -> In x s -> In x (lstrip_ascii s).
Proof.
  intros Hx. induction s as [|c s IH]; [tauto|].
  cbn [lstrip_ascii]. destruct (is_ascii_space c) eqn:Ec; [|tauto].
  intros [->|H]; [congruence | now apply IH].
Qed.

Lemma drop_underscores_keeps (x : char) :
  x <> chr "_" ->
  forall s prev r, drop_underscores prev s = Some r -> In x s -> In x r.
Proof.
  intros Hx. induction s as [|c s IH]; intros prev r; [intros _ []|].
  cbn [drop_underscores].
  destruct (N.eqb_spec c (chr "_")) as [->|Hc].
  - destruct (is_digit prev); [|discriminate].
    intros H [Hin|Hin]; [congruence|]. eapply IH; eassumption.
  - destruct ((prev =? chr "_") && negb (is_digit c)); [discriminate|].
    destruct (drop_underscores c s) as [r'|] eqn:E; [|discriminate].
    intros [= <-] [->|Hin]; [now left|]. right. eapply IH; eassumption.
Qed.

Section ScoreText.

Variable db : unicode_db.

Lemma to_ascii_decimal_keeps (x : char) :
  x < 127 ->
  forall s a, to_ascii_decimal db s = Some a -> In x s -> In x a.
Proof.
  intros Hx. induction s as [|c s IH]; intros a; [intros _ []|].
  cbn [to_ascii_decimal].
  destruct (if c <? 127 then Some c else _) as [c'|] eqn:Ec;
    [|discriminate].
  destruct (to_ascii_decimal db s) as [t'|]; [|discriminate].
  intros [= <-] [->|Hin].
  - apply N.ltb_lt in Hx. rewrite Hx in Ec. injection Ec as <-. now left.
  - right. now apply IH.
Qed.

Lemma float_of_str_no_s (s : pystr) (f : float) :
  float_of_str db s = Some f -> ~ In cap_s s.
Proof.
  unfold float_of_str.
  destruct (to_ascii_decimal db s) as [a|] eqn:Ea; [|discriminate].
  destruct (drop_underscores 0 a) as [b|] eqn:Eb; [|discriminate].
  intros H Hin. apply parse_float_literal_no_s in H. apply H.
  apply -> in_rev. apply lstrip_ascii_keeps; [reflexivity|].
  apply -> in_rev. apply lstrip_ascii_keeps; [reflexivity|].
  eapply drop_underscores_keeps; [discriminate | eassumption |].
  eapply to_ascii_decimal_keeps; [reflexivity | eassumption | assumption].
Qed.

(** The text of a value that [float] accepts has no capital S. *)
Lemma score_text_no_s (sv : pyval) (f : float) :
  py_float db sv = Ok f -> ~ In cap_s (py_str db sv).
Proof.
  destruct sv as [|b|z|x|s|l|d]; cbn [py_float py_str py_repr];
    try discriminate; intros H.
  - destruct b; not_in_text.
  - apply int_str_no_s.
  - apply float_repr_no_s.
  - destruct (float_of_str db s) as [g|] eqn:E; [|discriminate].
    eapply float_of_str_no_s. exact E.
Qed.

End ScoreText.

(** The words "Score out of range" do not occur in "Feedback generation
    failed: Score must be a number: " followed by a text without
    capital S. *)
Lemma no_out_of_range_wording (tail : pystr) :
  ~ In cap_s tail ->
  ~ embeds (lit "Score out of range")
      (lit "Feedback generation failed: Score must be a number: " ++ tail).
Proof.
  intros Hs (pre & post & H).
  let P := eval vm_compute in
             (lit "Feedback generation failed: Score must be a number: ") in
  change (lit "Feedback generation failed: Score must be a number: ")
    with P in H.
  let M := eval vm_compute in (lit "Score out of range") in
  change (lit "Score out of range") with M in H.
  repeat (destruct pre as [|? pre];
          [cbn [app] in H; discriminate H
          | cbn [app] in H; injection H as _ H]).
  apply Hs. cbn [app] in H. rewrite H.
  apply in_or_app. right. now left.
Qed.

(** ** Feedback and next question *)

Lemma dict_mem_get (k : pystr) (d : dict) :
  dict_mem k d = true <-> exists v, dict_get k d = Some v.
Proof.
  unfold dict_mem. destruct (dict_get k d) as [v|]; split;
    try discriminate; eauto.
  intros [v H]. discriminate.
Qed.

Section Validation.

Variable db : unicode_db.
Variable next_question_generation : pystr.
Variable feedback_generation : pystr.
Variable str_format : pystr -> list (pystr * pystr) -> result pystr.
Variable generate : pystr -> result pystr.

Let feedback := get_feedback_of_candidate_response
                  db feedback_generation str_format generate.
Let question := get_next_question
                  db next_question_generation str_format generate.

Lemma validate_score_eq (d : dict) (sv : pyval) :
  dict_get (lit "score") d = Some sv ->
  validate_score db d
  = if score_ok db sv then Ok tt
    else raise_analysis (lit "Score must be a number: " ++ py_str db sv).
Proof.
  intros Hs. unfold validate_score, score_ok, dict_item. rewrite Hs.
  cbn [bind]. destruct (py_float db sv) as [f|e]; cbn [bind];
    [|reflexivity].
  destruct (score_in_range f); reflexivity.
Qed.

Lemma feedback_of_present (d : dict) (fv sv : pyval) :
  dict_get (lit "feedback") d = Some fv ->
  dict_get (lit "score") d = Some sv ->
  feedback_of db (VDict d)
  = if score_ok db sv
    then Ok (VDict [(lit "feedback", fv); (lit "score", sv)])
    else raise_analysis (lit "Score must be a number: " ++ py_str db sv).
Proof.
  intros Hf Hs. unfold feedback_of. cbn [filter].
  unfold dict_mem. rewrite Hf, Hs. cbn [negb].
  erewrite validate_score_eq by eassumption.
  unfold dict_item. rewrite Hf, Hs.
  destruct (score_ok db sv); reflexivity.
Qed.

Lemma feedback_eq (q cr jd rh prompt : pystr) (v : pyval) :
  feedback_prompt feedback_generation str_format q cr jd rh = Ok prompt ->
  _make_llm_call_async generate prompt = Ok v ->
  feedback q cr jd rh
  = rewrap (lit "Feedback generation failed: ") (feedback_of db v).
Proof.
  intros Hp Hc. unfold feedback, get_feedback_of_candidate_response.
  rewrite Hp. cbn [bind]. rewrite Hc. reflexivity.
Qed.

Lemma question_eq (q cr rh jd prompt : pystr) (v : pyval) :
  next_question_prompt next_question_generation str_format q cr rh jd
  = Ok prompt ->
  _make_llm_call_async generate prompt = Ok v ->
  question q cr rh jd
  = rewrap (lit "Question generation failed: ") (next_question_of db v).
Proof.
  intros Hp Hc. unfold question, get_next_question.
  rewrite Hp. cbn [bind]. rewrite Hc. reflexivity.
Qed.

(** C4. On a normalised mapping with both keys,
    [get_feedback_of_candidate_response] succeeds exactly when [float]
    accepts the score and the float lies in [[0, 10]]; the scores 0,
    10, 7, 7.5 and "7" pass, and "high", 11 and -1 fail with an
    InterviewAnalysisError that names the value. *)
Theorem score_validation (q cr jd rh prompt : pystr) (d : dict)
    (fv sv : pyval) :
  feedback_prompt feedback_generation str_format q cr jd rh = Ok prompt ->
  _make_llm_call_async generate prompt = Ok (VDict d) ->
  dict_get (lit "feedback") d = Some fv ->
  dict_get (lit "score") d = Some sv ->
  ((exists r, feedback q cr jd rh = Ok r)
   <-> exists f, py_float db sv = Ok f /\ score_in_range f = true)
  /\ ((forall r, feedback q cr jd rh <> Ok r) ->
      feedback q cr jd rh
      = raise_analysis
          (lit "Feedback generation failed: Score must be a number: "
             ++ py_str db sv))
  /\ (In sv [VInt 0; VInt 10; VInt 7;
             VFloat (float_of_decimal false 75 (-1)); VStr (lit "7")] ->
      exists r, feedback q cr jd rh = Ok r)
  /\ (sv = VStr (lit "high") ->
      feedback q cr jd rh
      = raise_analysis
          (lit "Feedback generation failed: Score must be a number: high"))
  /\ (sv = VInt 11 ->
      feedback q cr jd rh
      = raise_analysis
          (lit "Feedback generation failed: Score must be a number: 11"))
  /\ (sv = VInt (-1) ->
      feedback q cr jd rh
      = raise_analysis
          (lit "Feedback generation failed: Score must be a number: -1")).
Proof.
  intros Hp Hc Hf Hs.
  erewrite feedback_eq by eassumption.
  erewrite feedback_of_present by eassumption.
  assert (Hok : score_ok db sv = true
                <-> exists f, py_float db sv = Ok f /\ score_in_range f = true).
  { unfold score_ok. destruct (py_float db sv) as [f|e]; split.
    - eauto.
    - now intros (f' & [= <-] & H).
    - discriminate.
    - now intros (f' & H & _). }
  repeat split.
  - intros [r H]. apply Hok. destruct (score_ok db sv); [reflexivity|].
    discriminate.
  - intros H. apply Hok in H. rewrite H. simpl. eauto.
  - intros H. destruct (score_ok db sv).
    + exfalso. eapply H. reflexivity.
    + unfold rewrap, raise_analysis. cbn [exn_str].
      rewrite app_assoc. reflexivity.
  - intros Hin.
    assert (E : score_ok db sv = true).
    { simpl in Hin.
      repeat (destruct Hin as [<-|Hin]; [vm_compute; reflexivity|]).
      contradiction. }
    rewrite E. simpl. eauto.
  - intros ->. vm_compute. reflexivity.
  - intros ->. vm_compute. reflexivity.
  - intros ->. vm_compute. reflexivity.
Qed.

Lemma rewrap_raise (A : Type) (prefix msg : pystr) :
  rewrap prefix (@raise_analysis A msg) = raise_analysis (prefix ++ msg).
Proof. reflexivity. Qed.

Lemma feedback_of_missing (d : dict) :
  dict_mem (lit "feedback") d && dict_mem (lit "score") d = false ->
  feedback_of db (VDict d)
  = raise_analysis
      (lit "Missing fields: "
         ++ py_repr db
              (VList (map VStr
                        (filter (fun f => negb (dict_mem f d))
                                [lit "feedback"; lit "score"])))).
Proof.
  intros H. unfold feedback_of. cbn [filter].
  destruct (dict_mem (lit "feedback") d), (dict_mem (lit "score") d);
    try discriminate; reflexivity.
Qed.

(** C5. On a normalised mapping that lacks one or both of the keys
    [feedback] and [score], [get_feedback_of_candidate_response] fails
    with one InterviewAnalysisError whose message lists every missing
    key; on the empty mapping it lists both. *)
Theorem missing_fields_all_listed (q cr jd rh prompt : pystr) (d : dict) :
  feedback_prompt feedback_generation str_format q cr jd rh = Ok prompt ->
  _make_llm_call_async generate prompt = Ok (VDict d) ->
  (dict_mem (lit "feedback") d = false ->
   dict_mem (lit "score") d = false ->
   feedback q cr jd rh
   = raise_analysis
       (lit "Feedback generation failed: Missing fields: ['feedback', 'score']"))
  /\ (dict_mem (lit "feedback") d = false ->
      dict_mem (lit "score") d = true ->
      feedback q cr jd rh
      = raise_analysis
          (lit "Feedback generation failed: Missing fields: ['feedback']"))
  /\ (dict_mem (lit "feedback") d = true ->
      dict_mem (lit "score") d = false ->
      feedback q cr jd rh
      = raise_analysis
          (lit "Feedback generation failed: Missing fields: ['score']"))
  /\ (d = [] ->
      feedback q cr jd rh
      = raise_analysis
          (lit "Feedback generation failed: Missing fields: ['feedback', 'score']")).
Proof.
  intros Hp Hc. erewrite feedback_eq by eassumption.
  assert (Hboth : dict_mem (lit "feedback") d = false ->
                  dict_mem (lit "score") d = false ->
                  rewrap (lit "Feedback generation failed: ")
                         (feedback_of db (VDict d))
                  = raise_analysis
                      (lit "Feedback generation failed: Missing fields: ['feedback', 'score']")).
  { intros H1 H2. rewrite feedback_of_missing by (rewrite H1; reflexivity).
    cbn [filter]. rewrite H1, H2. vm_compute. reflexivity. }
  repeat split.
  - exact Hboth.
  - intros H1 H2. rewrite feedback_of_missing by (rewrite H1; reflexivity).
    cbn [filter]. rewrite H1, H2. vm_compute. reflexivity.
  - intros H1 H2.
    rewrite feedback_of_missing by (rewrite H1, H2; reflexivity).
    cbn [filter]. rewrite H1, H2. vm_compute. reflexivity.
  - intros ->. apply Hboth; reflexivity.
Qed.

(** C8. Whenever [get_feedback_of_candidate_response] succeeds, the
    result is the mapping with exactly the keys [feedback] and [score],
    bound to the values the normalised mapping has for them: the score
    is the value of the mapping itself, in the representation it has
    there, never the float of the check. *)
Theorem feedback_result_shape (q cr jd rh prompt : pystr)
    (v r : pyval) :
  feedback_prompt feedback_generation str_format q cr jd rh = Ok prompt ->
  _make_llm_call_async generate prompt = Ok v ->
  feedback q cr jd rh = Ok r ->
  exists d fv sv,
    v = VDict d
    /\ dict_get (lit "feedback") d = Some fv
    /\ dict_get (lit "score") d = Some sv
    /\ r = VDict [(lit "feedback", fv); (lit "score", sv)].
Proof.
  intros Hp Hc. erewrite feedback_eq by eassumption.
  destruct v as [| | | | |l|d]; try discriminate.
  destruct (dict_get (lit "feedback") d) as [fv|] eqn:Hf.
  - destruct (dict_get (lit "score") d) as [sv|] eqn:Hs.
    + erewrite feedback_of_present by eassumption.
      destruct (score_ok db sv); [|discriminate].
      intros [= <-]. exists d, fv, sv. auto.
    + rewrite feedback_of_missing; [discriminate|].
      unfold dict_mem. now rewrite Hf, Hs.
  - rewrite feedback_of_missing; [discriminate|].
    unfold dict_mem. now rewrite Hf.
Qed.

(** C10. On a normalised mapping that reaches the score check (both
    keys are present) and whose score coerces to a float outside
    [[0, 10]], the error that reaches the caller carries "Score must be a
    number:" followed by the score as the mapping has it; the inner
    "Score out of range" exception is caught by the handler of the same
    [try], and its wording occurs nowhere in the message of the error
    the caller gets. *)
Theorem out_of_range_message (q cr jd rh prompt : pystr) (d : dict)
    (fv sv : pyval) (f : float) :
  feedback_prompt feedback_generation str_format q cr jd rh = Ok prompt ->
  _make_llm_call_async generate prompt = Ok (VDict d) ->
  dict_get (lit "feedback") d = Some fv ->
  dict_get (lit "score") d = Some sv ->
  py_float db sv = Ok f ->
  score_in_range f = false ->
  feedback q cr jd rh
  = raise_analysis
      (lit "Feedback generation failed: Score must be a number: "
         ++ py_str db sv)
  /\ forall e,
      feedback q cr jd rh = Raise e ->
      ~ embeds (lit "Score out of range") (exn_str e).
Proof.
  intros Hp Hc Hf Hs Hfl Hrange.
  erewrite feedback_eq by eassumption.
  erewrite feedback_of_present by eassumption.
  unfold score_ok. rewrite Hfl, Hrange. rewrite rewrap_raise.
  rewrite app_assoc. split; [reflexivity|].
  intros e [= <-]. cbn [exn_str].
  apply no_out_of_range_wording. eapply score_text_no_s. exact Hfl.
Qed.

(** C9 (amended). Given the normalised result of the gateway,
    [get_next_question] succeeds exactly when that result is a mapping
    with the key [next_question], and then returns the value of that
    key unchanged, whatever its type; a mapping without the key is
    refused with an InterviewAnalysisError that shows the mapping. *)
Theorem next_question_returned (q cr rh jd prompt : pystr) (v : pyval) :
  next_question_prompt next_question_generation str_format q cr rh jd
  = Ok prompt ->
  _make_llm_call_async generate prompt = Ok v ->
  (forall x,
      question q cr rh jd = Ok x
      <-> exists d, v = VDict d /\ dict_get (lit "next_question") d = Some x)
  /\ (forall d,
         v = VDict d -> dict_mem (lit "next_question") d = false ->
         question q cr rh jd
         = raise_analysis
             (lit "Question generation failed: Missing 'next_question' in LLM output: "
                ++ py_repr db v)).
Proof.
  intros Hp Hc. erewrite question_eq by eassumption. split.
  - intros x. unfold next_question_of.
    destruct v as [| | | | |l|d]; try (split; [discriminate|]);
      try (intros (d' & [=] & _)).
    unfold dict_mem, dict_item.
    destruct (dict_get (lit "next_question") d) as [y|] eqn:E;
      cbn [negb rewrap raise_analysis]; split.
    + intros [= <-]. eauto.
    + intros (d' & [= <-] & H). congruence.
    + discriminate.
    + intros (d' & [= <-] & H). congruence.
  - intros d -> Hm. unfold next_question_of. rewrite Hm.
    cbn [negb]. rewrite rewrap_raise. rewrite app_assoc. reflexivity.
Qed.

End Validation.

(** ** The combined operation *)

Lemma wait_both_done (fb nq : result pyval) (f q : pyval) :
  fb = Ok f -> nq = Ok q ->
  forall pre post fb_done nq_done,
    ~ In DeadlineReached pre ->
    fb_done = true \/ In FeedbackDone pre ->
    nq_done = true \/ In QuestionDone pre ->
    fb_done && nq_done = false ->
    wait_for_gather fb nq fb_done nq_done (pre ++ post) = Some (Ok (f, q)).
Proof.
  intros -> ->. induction pre as [|e pre IH]; intros post fd qd Hd Hf Hq Hst.
  - destruct Hf as [->|[]], Hq as [->|[]]. discriminate.
  - assert (Hd' : ~ In DeadlineReached pre) by (intros H; apply Hd; now right).
    destruct e; cbn [wait_for_gather app].
    + destruct fd.
      * apply IH; auto. destruct Hq as [Hq|[Hq|Hq]]; auto. discriminate.
      * destruct qd; [reflexivity|].
        apply IH; auto. destruct Hq as [Hq|[Hq|Hq]]; auto; discriminate.
    + destruct qd.
      * apply IH; auto. destruct Hf as [Hf|[Hf|Hf]]; auto. discriminate.
      * destruct fd; [reflexivity|].
        apply IH; auto. destruct Hf as [Hf|[Hf|Hf]]; auto; discriminate.
    + exfalso. apply Hd. now left.
Qed.

(** A wait that is pending after [pre] ends with the timeout when the
    deadline comes next. *)
Lemma wait_pending_deadline (fb nq : result pyval) :
  forall pre post fb_done nq_done,
    wait_for_gather fb nq fb_done nq_done pre = None ->
    wait_for_gather fb nq fb_done nq_done (pre ++ DeadlineReached :: post)
    = Some (Raise (Exn TimeoutError [])).
Proof.
  induction pre as [|e pre IH]; intros post fd qd; [reflexivity|].
  destruct e; cbn [wait_for_gather app].
  - destruct fd; [apply IH|].
    destruct fb as [f|c]; [|discriminate].
    destruct qd; [discriminate | apply IH].
  - destruct qd; [apply IH|].
    destruct nq as [q|c]; [|discriminate].
    destruct fd; [discriminate | apply IH].
  - discriminate.
Qed.

(** The wait is pending after [pre] when the deadline is not in [pre],
    not both tasks have ended in [pre], and those that have ended there
    have succeeded. *)
Lemma wait_pending_intro (fb nq : result pyval) :
  forall pre fb_done nq_done,
    ~ In DeadlineReached pre ->
    ~ ((fb_done = true \/ In FeedbackDone pre)
       /\ (nq_done = true \/ In QuestionDone pre)) ->
    (In FeedbackDone pre -> fb_done = false -> exists f, fb = Ok f) ->
    (In QuestionDone pre -> nq_done = false -> exists q, nq = Ok q) ->
    wait_for_gather fb nq fb_done nq_done pre = None.
Proof.
  induction pre as [|e pre IH]; intros fd qd Hd Hnot Hf Hq; [reflexivity|].
  assert (Hd' : ~ In DeadlineReached pre) by (intros H; apply Hd; now right).
  destruct e; cbn [wait_for_gather].
  - destruct fd.
    + apply IH; auto.
      * intros [H1 [H2|H2]]; apply Hnot; split; auto. right. now right.
      * intros _ H. discriminate.
      * intros H1 H2. apply Hq; auto. now right.
    + destruct (Hf (or_introl eq_refl) eq_refl) as [f ->].
      destruct qd.
      * exfalso. apply Hnot. split; [right; now left | now left].
      * apply IH; auto.
        -- intros [_ [H2|H2]]; [discriminate|].
           apply Hnot. split; right; [now left | now right].
        -- intros _ H. discriminate.
        -- intros H1 H2. apply Hq; auto. now right.
  - destruct qd.
    + apply IH; auto.
      * intros [[H1|H1] H2]; apply Hnot; split; auto. right. now right.
      * intros H1 H2. apply Hf; auto. now right.
      * intros _ H. discriminate.
    + destruct (Hq (or_introl eq_refl) eq_refl) as [q ->].
      destruct fd.
      * exfalso. apply Hnot. split; [now left | right; now left].
      * apply IH; auto.
        -- intros [[H1|H1] _]; [discriminate|].
           apply Hnot. split; right; [now right | now left].
        -- intros H1 H2. apply Hf; auto. now right.
        -- intros _ H. discriminate.
  - exfalso. apply Hd. now left.
Qed.

(** Conversely, a pending wait has seen no deadline, not both tasks
    end, and no task fail. *)
Lemma wait_pending_elim (fb nq : result pyval) :
  forall pre fb_done nq_done,
    fb_done && nq_done = false ->
    wait_for_gather fb nq fb_done nq_done pre = None ->
    ~ In DeadlineReached pre
    /\ ~ ((fb_done = true \/ In FeedbackDone pre)
          /\ (nq_done = true \/ In QuestionDone pre))
    /\ (In FeedbackDone pre -> fb_done = false -> exists f, fb = Ok f)
    /\ (In QuestionDone pre -> nq_done = false -> exists q, nq = Ok q).
Proof.
  induction pre as [|e pre IH]; intros fd qd Hst H.
  - split; [intros []|]. split; [|split; intros []].
    intros [[->|[]] [->|[]]]. discriminate.
  - destruct e; cbn [wait_for_gather] in H.
    + destruct fd.
      * destruct (IH _ _ Hst H) as (Hd & Hnot & Hf & Hq).
        split; [|split; [|split]].
        -- intros [E|E]; [discriminate | auto].
        -- intros [_ [E|[E|E]]]; try discriminate;
             apply Hnot; split; auto.
        -- intros _ E. discriminate.
        -- intros [E|E] E'; [discriminate | auto].
      * destruct fb as [f|c]; [|discriminate].
        destruct qd; [discriminate|].
        destruct (IH true false eq_refl H) as (Hd & Hnot & Hf & Hq).
        split; [|split; [|split]].
        -- intros [E|E]; [discriminate | auto].
        -- intros [_ [E|[E|E]]]; try discriminate.
           apply Hnot. split; auto.
        -- eauto.
        -- intros [E|E] E'; [discriminate | auto].
    + destruct qd.
      * destruct (IH _ _ Hst H) as (Hd & Hnot & Hf & Hq).
        split; [|split; [|split]].
        -- intros [E|E]; [discriminate | auto].
        -- intros [[E|[E|E]] _]; try discriminate;
             apply Hnot; split; auto.
        -- intros [E|E] E'; [discriminate | auto].
        -- intros _ E. discriminate.
      * destruct nq as [q|c]; [|discriminate].
        destruct fd; [discriminate|].
        destruct (IH false true eq_refl H) as (Hd & Hnot & Hf & Hq).
        split; [|split; [|split]].
        -- intros [E|E]; [discriminate | auto].
        -- intros [[E|[E|E]] _]; try discriminate.
           apply Hnot. split; auto.
        -- intros [E|E] E'; [discriminate | auto].
        -- eauto.
    + discriminate.
Qed.

(** What [wait_for(gather(...))] raises is the timeout or the exception
    of one of the two tasks. *)
Lemma wait_raises (fb nq : result pyval) (e : exn) :
  forall sched fb_done nq_done,
    wait_for_gather fb nq fb_done nq_done sched = Some (Raise e) ->
    e = Exn TimeoutError [] \/ fb = Raise e \/ nq = Raise e.
Proof.
  induction sched as [|ev sched IH]; intros fd qd; [discriminate|].
  destruct ev; cbn [wait_for_gather].
  - destruct fd; [apply IH|].
    destruct fb as [f|c]; [|intros [= <-]; auto].
    destruct qd; [|apply IH].
    destruct nq as [q|c]; [discriminate|]. intros [= <-]. auto.
  - destruct qd; [apply IH|].
    destruct nq as [q|c]; [|intros [= <-]; auto].
    destruct fd; [|apply IH].
    destruct fb as [f|c]; [discriminate|]. intros [= <-]. auto.
  - intros [= <-]. auto.
Qed.

Lemma rewrap_inv (A : Type) (prefix : pystr) (body : result A) (e : exn) :
  rewrap prefix body = Raise e ->
  exists c, body = Raise c
            /\ e = Exn InterviewAnalysisError (prefix ++ exn_str c).
Proof.
  destruct body as [a|c]; [discriminate|]. intros [= <-]. eauto.
Qed.

Lemma embeds_suffix (pre m : pystr) : embeds m (pre ++ m).
Proof. exists pre, []. now rewrite app_nil_r. Qed.

Lemma embeds_app (pre m msg : pystr) : embeds m msg -> embeds m (pre ++ msg).
Proof.
  intros (a & b & ->). exists (pre ++ a), b. now rewrite app_assoc.
Qed.

Lemma embeds_cons (x : char) (m msg : pystr) :
  embeds m msg -> embeds m (x :: msg).
Proof. apply (@embeds_app [x]). Qed.

Lemma embeds_refl (m : pystr) : embeds m m.
Proof. apply (@embeds_suffix []). Qed.

Ltac embeds_tac :=
  cbn [exn_str];
  repeat first [apply embeds_refl | apply embeds_cons | apply embeds_app].

Lemma pipeline_raises (prefix : pystr) (prompt : result pystr)
    (generate : pystr -> result pystr) (check : pyval -> result pyval)
    (e : exn) :
  pipeline prefix prompt generate check = Raise e ->
  exists c, layer_failure prompt generate check c /\ surfaces c e.
Proof.
  unfold pipeline, _make_llm_call_async, get_response_from_llm, surfaces.
  destruct prompt as [p|c] eqn:Ep; cbn [bind rewrap].
  - destruct (generate p) as [text|c] eqn:Eg; cbn [bind rewrap].
    + change (_safe_json_parse (parse_json_response (VStr text)))
        with (normalize (VStr text)).
      destruct (normalize (VStr text)) as [v|c] eqn:En; cbn [bind rewrap].
      * destruct (check v) as [r|c] eqn:Ec; cbn [rewrap]; [discriminate|].
        intros [= <-]. exists c. split.
        -- eapply validation_failed; (eassumption || reflexivity).
        -- split; [reflexivity | embeds_tac].
      * intros [= <-]. exists c. split.
        -- eapply normalization_failed; (eassumption || reflexivity).
        -- split; [reflexivity | embeds_tac].
    + intros [= <-]. exists c. split.
      * eapply transport_failed; (eassumption || reflexivity).
      * split; [reflexivity | embeds_tac].
  - intros [= <-]. exists c. split.
    + now apply rendering_failed.
    + split; [reflexivity | embeds_tac].
Qed.

Lemma pipeline_surfaces (prefix : pystr) (prompt : result pystr)
    (generate : pystr -> result pystr) (check : pyval -> result pyval)
    (c : exn) :
  layer_failure prompt generate check c ->
  exists e, pipeline prefix prompt generate check = Raise e /\ surfaces c e.
Proof.
  unfold pipeline, _make_llm_call_async, get_response_from_llm, surfaces.
  intros [c' Hp | p c' Hp Hg | p text c' Hp Hg Hn | p text v c' Hp Hg Hn Hc];
    rewrite Hp; cbn [bind rewrap]; try rewrite Hg; cbn [bind rewrap];
    try (change (_safe_json_parse (parse_json_response (VStr text)))
           with (normalize (VStr text)); rewrite Hn; cbn [bind rewrap]);
    try (rewrite Hc; cbn [rewrap]);
    eexists; (split; [reflexivity|]); (split; [reflexivity|]);
    embeds_tac.
Qed.

Lemma embeds_trans (a b c : pystr) : embeds a b -> embeds b c -> embeds a c.
Proof.
  intros (p1 & q1 & ->) (p2 & q2 & ->).
  exists (p2 ++ p1), (q1 ++ q2). now rewrite <- !app_assoc.
Qed.

(** An occurrence is one that [in] finds. *)
Lemma embeds_contains (m msg : pystr) :
  embeds m msg -> contains m msg = true.
Proof.
  intros (pre & post & ->). unfold contains.
  induction pre as [|x pre IH]; cbn [app].
  - destruct (m ++ post) as [|y t] eqn:E; cbn [find].
    + destruct m; [reflexivity | discriminate].
    + rewrite <- E, startswith_app. reflexivity.
  - cbn [find]. destruct (startswith m (x :: pre ++ m ++ post));
      [reflexivity|].
    destruct (find m (pre ++ m ++ post)); [reflexivity | discriminate].
Qed.

(** What the wait has produced is not changed by later events. *)
Lemma wait_final (fb nq : result pyval) (r : result (pyval * pyval)) :
  forall pre post fb_done nq_done,
    wait_for_gather fb nq fb_done nq_done pre = Some r ->
    wait_for_gather fb nq fb_done nq_done (pre ++ post) = Some r.
Proof.
  induction pre as [|e pre IH]; intros post fd qd; [discriminate|].
  destruct e; cbn [wait_for_gather app].
  - destruct fd; [apply IH|].
    destruct fb as [f|c]; [|trivial].
    destruct qd; [trivial | apply IH].
  - destruct qd; [apply IH|].
    destruct nq as [q|c]; [|trivial].
    destruct fd; [trivial | apply IH].
  - trivial.
Qed.

(** A pair comes out of the wait only when both tasks have ended well
    before the deadline. *)
Lemma wait_ok_inv (fb nq : result pyval) (f q : pyval) :
  forall sched fb_done nq_done,
    wait_for_gather fb nq fb_done nq_done sched = Some (Ok (f, q)) ->
    fb = Ok f /\ nq = Ok q
    /\ exists pre post,
         sched = pre ++ post
         /\ (fb_done = true \/ In FeedbackDone pre)
         /\ (nq_done = true \/ In QuestionDone pre)
         /\ ~ In DeadlineReached pre.
Proof.
  induction sched as [|e sched IH]; intros fd qd; [discriminate|].
  destruct e; cbn [wait_for_gather].
  - destruct fd.
    + intros H. destruct (IH _ _ H) as (Hf & Hq & pre & post & -> & H1 & H2 & H3).
      split; [exact Hf|]. split; [exact Hq|].
      exists (FeedbackDone :: pre), post. split; [reflexivity|].
      split; [now left|]. split.
      * destruct H2 as [H2|H2]; [now left | right; now right].
      * intros [E|E]; [discriminate | auto].
    + destruct fb as [f0|c]; [|discriminate].
      destruct qd.
      * destruct nq as [q0|c]; [|discriminate].
        intros [= <- <-]. split; [reflexivity|]. split; [reflexivity|].
        exists [FeedbackDone], sched. split; [reflexivity|].
        split; [right; now left|]. split; [now left|].
        intros [E|[]]. discriminate.
      * intros H.
        destruct (IH _ _ H) as (Hf & Hq & pre & post & -> & H1 & H2 & H3).
        split; [exact Hf|]. split; [exact Hq|].
        exists (FeedbackDone :: pre), post. split; [reflexivity|].
        split; [right; now left|]. split.
        -- destruct H2 as [H2|H2]; [discriminate | right; now right].
        -- intros [E|E]; [discriminate | auto].
  - destruct qd.
    + intros H. destruct (IH _ _ H) as (Hf & Hq & pre & post & -> & H1 & H2 & H3).
      split; [exact Hf|]. split; [exact Hq|].
      exists (QuestionDone :: pre), post. split; [reflexivity|].
      split.
      * destruct H1 as [H1|H1]; [now left | right; now right].
      * split; [now left|]. intros [E|E]; [discriminate | auto].
    + destruct nq as [q0|c]; [|discriminate].
      destruct fd.
      * destruct fb as [f0|c]; [|discriminate].
        intros [= <- <-]. split; [reflexivity|]. split; [reflexivity|].
        exists [QuestionDone], sched. split; [reflexivity|].
        split; [now left|]. split; [right; now left|].
        intros [E|[]]. discriminate.
      * intros H.
        destruct (IH _ _ H) as (Hf & Hq & pre & post & -> & H1 & H2 & H3).
        split; [exact Hf|]. split; [exact Hq|].
        exists (QuestionDone :: pre), post. split; [reflexivity|].
        split.
        -- destruct H1 as [H1|H1]; [discriminate | right; now right].
        -- split; [right; now left|].
           intros [E|E]; [discriminate | auto].
  - discriminate.
Qed.

(** When neither task can raise a timeout of its own, the timeout that
    comes out of the wait is the one of the deadline, reached while the
    wait was pending. *)
Lemma wait_timeout_inv (fb nq : result pyval) (e : exn) :
  (forall c, fb = Raise c -> is_timeout c = false) ->
  (forall c, nq = Raise c -> is_timeout c = false) ->
  is_timeout e = true ->
  forall sched fb_done nq_done,
    wait_for_gather fb nq fb_done nq_done sched = Some (Raise e) ->
    exists pre post,
      sched = pre ++ DeadlineReached :: post
      /\ wait_for_gather fb nq fb_done nq_done pre = None.
Proof.
  intros Hfb Hnq He.
  induction sched as [|ev sched IH]; intros fd qd; [discriminate|].
  destruct ev; cbn [wait_for_gather].
  - destruct fd.
    + intros H. destruct (IH _ _ H) as (pre & post & -> & Hp).
      exists (FeedbackDone :: pre), post. now split.
    + destruct fb as [f|c].
      * destruct qd.
        -- destruct nq as [q|c]; [discriminate|].
           intros [= <-]. rewrite (Hnq _ eq_refl) in He. discriminate.
        -- intros H. destruct (IH _ _ H) as (pre & post & -> & Hp).
           exists (FeedbackDone :: pre), post. now split.
      * intros [= <-]. rewrite (Hfb _ eq_refl) in He. discriminate.
  - destruct qd.
    + intros H. destruct (IH _ _ H) as (pre & post & -> & Hp).
      exists (QuestionDone :: pre), post. now split.
    + destruct nq as [q|c].
      * destruct fd.
        -- destruct fb as [f|c]; [discriminate|].
           intros [= <-]. rewrite (Hfb _ eq_refl) in He. discriminate.
        -- intros H. destruct (IH _ _ H) as (pre & post & -> & Hp).
           exists (QuestionDone :: pre), post. now split.
      * intros [= <-]. rewrite (Hnq _ eq_refl) in He. discriminate.
  - intros _. exists [], sched. now split.
Qed.

(** A pending wait ends with the exception of the task that fails
    next. *)
Lemma wait_pending_feedback_fails (fb nq : result pyval) (e : exn) :
  fb = Raise e ->
  forall pre post nq_done,
    wait_for_gather fb nq false nq_done pre = None ->
    ~ In FeedbackDone pre ->
    wait_for_gather fb nq false nq_done (pre ++ FeedbackDone :: post)
    = Some (Raise e).
Proof.
  intros ->. induction pre as [|ev pre IH]; intros post qd; [reflexivity|].
  destruct ev; cbn [wait_for_gather app].
  - intros _ H. exfalso. apply H. now left.
  - intros Hw Hn.
    assert (Hn' : ~ In FeedbackDone pre) by (intros H; apply Hn; now right).
    destruct qd; [now apply IH|].
    destruct nq as [q|c]; [|discriminate]. now apply IH.
  - discriminate.
Qed.

Lemma wait_pending_question_fails (fb nq : result pyval) (e : exn) :
  nq = Raise e ->
  forall pre post fb_done,
    wait_for_gather fb nq fb_done false pre = None ->
    ~ In QuestionDone pre ->
    wait_for_gather fb nq fb_done false (pre ++ QuestionDone :: post)
    = Some (Raise e).
Proof.
  intros ->. induction pre as [|ev pre IH]; intros post fd; [reflexivity|].
  destruct ev; cbn [wait_for_gather app].
  - intros Hw Hn.
    assert (Hn' : ~ In QuestionDone pre) by (intros H; apply Hn; now right).
    destruct fd; [now apply IH|].
    destruct fb as [f|c]; [|discriminate]. now apply IH.
  - intros _ H. exfalso. apply H. now left.
  - discriminate.
Qed.

(** What a [rewrap] raises is no timeout. *)
Lemma rewrap_not_timeout (A : Type) (prefix : pystr) (body : result A)
    (c : exn) :
  rewrap prefix body = Raise c -> is_timeout c = false.
Proof.
  intros H. apply rewrap_inv in H. destruct H as (c0 & _ & ->). reflexivity.
Qed.

Section Combined.

Variable db : unicode_db.
Variable next_question_generation : pystr.
Variable feedback_generation : pystr.
Variable str_format : pystr -> list (pystr * pystr) -> result pystr.
Variable generate_fb generate_nq : pystr -> result pystr.
Variable question candidate_response job_description resume_highlights
  : pystr.

(** The two sub-calls of the combined operation, each with its own
    order of arguments. *)
Let feedback_call :=
  get_feedback_of_candidate_response db feedback_generation str_format
    generate_fb question candidate_response job_description
    resume_highlights.
Let question_call :=
  get_next_question db next_question_generation str_format
    generate_nq question candidate_response resume_highlights
    job_description.
Let combined :=
  analyze_candidate_response_and_generate_new_question
    db next_question_generation feedback_generation str_format
    generate_fb generate_nq
    question candidate_response job_description resume_highlights.

Let feedback_layers :=
  layer_failure
    (feedback_prompt feedback_generation str_format question
       candidate_response job_description resume_highlights)
    generate_fb (feedback_of db).
Let question_layers :=
  layer_failure
    (next_question_prompt next_question_generation str_format question
       candidate_response resume_highlights job_description)
    generate_nq (next_question_of db).

(** C6. When both sub-calls succeed and both complete before the
    deadline, in either order, the combined operation returns the pair
    whose first component is the result of [get_next_question(question,
    candidate_response, resume_highlights, job_description)] and whose
    second is the result of
    [get_feedback_of_candidate_response(question, candidate_response,
    job_description, resume_highlights)]. *)
Theorem combined_result_order (pre post : list event) (fb nq : pyval) :
  feedback_call = Ok fb ->
  question_call = Ok nq ->
  In FeedbackDone pre ->
  In QuestionDone pre ->
  ~ In DeadlineReached pre ->
  combined (pre ++ post) = Some (Ok (nq, fb)).
Proof.
  intros Hf Hq Hfd Hqd Hd.
  unfold combined, analyze_candidate_response_and_generate_new_question.
  fold feedback_call. fold question_call.
  erewrite wait_both_done; eauto.
Qed.

(** C7. In every run in which the deadline is reached while the
    combined operation still waits, that is before both sub-calls have
    completed, the operation fails with the InterviewAnalysisError "LLM
    operations timed out"; no result of a sub-call is returned. *)
Theorem combined_timeout (pre post : list event) :
  still_waiting feedback_call question_call pre ->
  combined (pre ++ DeadlineReached :: post)
  = Some (raise_analysis (lit "LLM operations timed out")).
Proof.
  unfold still_waiting. intros Hw.
  unfold combined, analyze_candidate_response_and_generate_new_question.
  fold feedback_call. fold question_call.
  now rewrite wait_pending_deadline.
Qed.

(** What it means to wait still: the deadline has not come, not both
    sub-calls have completed, and none that completed has failed (the
    failure of a sub-call ends the run at once). *)
Lemma still_waiting_iff (pre : list event) :
  still_waiting feedback_call question_call pre
  <-> ~ In DeadlineReached pre
      /\ ~ (In FeedbackDone pre /\ In QuestionDone pre)
      /\ (In FeedbackDone pre -> exists fb, feedback_call = Ok fb)
      /\ (In QuestionDone pre -> exists nq, question_call = Ok nq).
Proof.
  unfold still_waiting. split.
  - intros H. apply wait_pending_elim in H; [|reflexivity].
    destruct H as (Hd & Hnot & Hf & Hq). repeat split; auto.
    intros [H1 H2]. apply Hnot. auto.
  - intros (Hd & Hnot & Hf & Hq). apply wait_pending_intro; auto.
    intros [[H1|H1] [H2|H2]]; try discriminate. auto.
Qed.

(** C1 (amended). Each of the three operations raises nothing but
    InterviewAnalysisError, and swallows no failure.  For the two single
    operations, every failure of a layer (rendering, transport,
    normalisation, validation) makes the operation fail with an error
    whose message contains the message of the exception that layer
    raises, and every error of the operation comes from such a failure.
    For the combined operation: every error it raises is "LLM operations
    timed out" or contains the message of a failed layer of one of its
    sub-calls; when a layer of either sub-call fails, the operation
    returns no result, whatever the schedule; the failure of a sub-call
    that arrives while the operation still waits is raised at once, with
    the message of the failed layer in it; and once the deadline is
    reached the caller has an outcome.  The message that is kept is the
    one of the exception a layer lets out, not the one of an exception
    caught inside the layer: the normaliser fails with "LLM returned
    None instead of valid JSON" whatever the decoder objected to, and
    the check of the score with "Score must be a number: " and the score,
    whatever [float] or the range test raised. *)
Theorem single_error_kind :
  (forall e, question_call = Raise e ->
             exists c, question_layers c /\ surfaces c e)
  /\ (forall c, question_layers c ->
                exists e, question_call = Raise e /\ surfaces c e)
  /\ (forall e, feedback_call = Raise e ->
                exists c, feedback_layers c /\ surfaces c e)
  /\ (forall c, feedback_layers c ->
                exists e, feedback_call = Raise e /\ surfaces c e)
  /\ (forall sched e,
         combined sched = Some (Raise e) ->
         exn_class e = InterviewAnalysisError
         /\ (exn_str e = lit "LLM operations timed out"
             \/ exists c, (feedback_layers c \/ question_layers c)
                          /\ embeds (exn_str c) (exn_str e)))
  /\ (forall c, feedback_layers c \/ question_layers c ->
                forall sched nq fb, combined sched <> Some (Ok (nq, fb)))
  /\ (forall c pre post,
         still_waiting feedback_call question_call pre ->
         ~ In FeedbackDone pre ->
         feedback_layers c ->
         exists e, combined (pre ++ FeedbackDone :: post) = Some (Raise e)
                   /\ surfaces c e)
  /\ (forall c pre post,
         still_waiting feedback_call question_call pre ->
         ~ In QuestionDone pre ->
         question_layers c ->
         exists e, combined (pre ++ QuestionDone :: post) = Some (Raise e)
                   /\ surfaces c e)
  /\ (forall sched,
         In DeadlineReached sched ->
         (exists nq fb, combined sched = Some (Ok (nq, fb)))
         \/ exists e, combined sched = Some (Raise e)
                      /\ exn_class e = InterviewAnalysisError)
  /\ (forall text c,
         normalize (VStr text) = Raise c ->
         c = Exn InterviewAnalysisError
               (lit "LLM returned None instead of valid JSON"))
  /\ (forall d sv c,
         dict_get (lit "score") d = Some sv ->
         validate_score db d = Raise c ->
         c = Exn InterviewAnalysisError
               (lit "Score must be a number: " ++ py_str db sv)).
Proof.
  assert (Hcomb : forall sched,
            combined sched
            = match wait_for_gather feedback_call question_call
                      false false sched with
              | None => None
              | Some (Ok (f, q)) => Some (Ok (q, f))
              | Some (Raise e) =>
                  if is_timeout e
                  then Some (raise_analysis (lit "LLM operations timed out"))
                  else Some (raise_analysis
                               (lit "Response analysis failed: "
                                  ++ exn_str e))
              end) by reflexivity.
  assert (Hfb : forall c, feedback_layers c ->
                          exists e, feedback_call = Raise e /\ surfaces c e)
    by apply pipeline_surfaces.
  assert (Hnq : forall c, question_layers c ->
                          exists e, question_call = Raise e /\ surfaces c e)
    by apply pipeline_surfaces.
  split; [|split; [|split; [|split; [|split; [|split; [|split;
    [|split; [|split; [|split]]]]]]]]].
  - apply pipeline_raises.
  - exact Hnq.
  - apply pipeline_raises.
  - exact Hfb.
  - intros sched e. rewrite Hcomb.
    destruct (wait_for_gather feedback_call question_call false false sched)
      as [[[f q]|c]|] eqn:E; try discriminate.
    apply wait_raises in E.
    destruct E as [-> | [E|E]].
    + intros [= <-]. split; [reflexivity|]. now left.
    + destruct (pipeline_raises _ _ _ _ E) as (c0 & Hl & Hc & He).
      assert (Ht : is_timeout c = false)
        by (unfold is_timeout; now rewrite Hc).
      rewrite Ht. intros [= <-]. split; [reflexivity|].
      right. exists c0. split; [now left|].
      eapply embeds_trans; [exact He | embeds_tac].
    + destruct (pipeline_raises _ _ _ _ E) as (c0 & Hl & Hc & He).
      assert (Ht : is_timeout c = false)
        by (unfold is_timeout; now rewrite Hc).
      rewrite Ht. intros [= <-]. split; [reflexivity|].
      right. exists c0. split; [now right|].
      eapply embeds_trans; [exact He | embeds_tac].
  - intros c Hc sched nq fb. rewrite Hcomb.
    destruct (wait_for_gather feedback_call question_call false false sched)
      as [[[f q]|c0]|] eqn:E;
      [|destruct (is_timeout c0); discriminate | discriminate].
    apply wait_ok_inv in E. destruct E as (Ef & Eq & _).
    destruct Hc as [Hc|Hc].
    + destruct (Hfb c Hc) as (e & He & _). congruence.
    + destruct (Hnq c Hc) as (e & He & _). congruence.
  - intros c pre post Hw Hn Hc. unfold still_waiting in Hw.
    destruct (Hfb c Hc) as (e0 & He0 & Hcl & Hem).
    rewrite Hcomb.
    erewrite wait_pending_feedback_fails by eassumption.
    assert (Ht : is_timeout e0 = false)
      by (unfold is_timeout; now rewrite Hcl).
    rewrite Ht. eexists. split; [reflexivity|].
    split; [reflexivity|]. cbn [exn_str]. now apply embeds_app.
  - intros c pre post Hw Hn Hc. unfold still_waiting in Hw.
    destruct (Hnq c Hc) as (e0 & He0 & Hcl & Hem).
    rewrite Hcomb.
    erewrite wait_pending_question_fails by eassumption.
    assert (Ht : is_timeout e0 = false)
      by (unfold is_timeout; now rewrite Hcl).
    rewrite Ht. eexists. split; [reflexivity|].
    split; [reflexivity|]. cbn [exn_str]. now apply embeds_app.
  - intros sched H. apply in_split in H. destruct H as (pre & post & ->).
    rewrite Hcomb.
    destruct (wait_for_gather feedback_call question_call false false pre)
      as [r|] eqn:E.
    + erewrite wait_final by exact E.
      destruct r as [[f q]|c]; [left; eauto|].
      right. destruct (is_timeout c); eexists; split; reflexivity.
    + rewrite wait_pending_deadline by exact E. right.
      eexists; split; reflexivity.
  - intros text c. unfold normalize.
    destruct (parse_json_response_shape (VStr text)) as [E|[d E]];
      rewrite E; cbn [_safe_json_parse]; [|discriminate].
    now intros [= <-].
  - intros d sv c Hs. erewrite validate_score_eq by exact Hs.
    destruct (score_ok db sv); [discriminate|]. now intros [= <-].
Qed.

End Combined.


(** ** Concrete cases *)

(** The score "7" of [feedback_text] passes the check. *)
Lemma score_validation_witness :
  exists r,
    get_feedback_of_candidate_response ascii_db sample_feedback_template
      sample_format (answers feedback_text)
      sample_question sample_answer sample_job sample_resume = Ok r.
Proof.
  edestruct (@score_validation ascii_db sample_feedback_template sample_format
               (answers feedback_text)
               sample_question sample_answer sample_job sample_resume)
    as (_ & _ & H & _).
  - run.
  - run.
  - run.
  - run.
  - apply H. simpl. auto 10.
Defined.

(** The empty object lacks both keys. *)
Lemma missing_fields_all_listed_witness :
  get_feedback_of_candidate_response ascii_db sample_feedback_template
    sample_format (answers empty_object_text)
    sample_question sample_answer sample_job sample_resume
  = raise_analysis
      (lit "Feedback generation failed: Missing fields: ['feedback', 'score']").
Proof.
  edestruct (@missing_fields_all_listed ascii_db sample_feedback_template
               sample_format (answers empty_object_text)
               sample_question sample_answer sample_job sample_resume)
    as (H & _).
  - run.
  - run.
  - apply H; run.
Defined.

(** The score of [feedback_text] comes back as the string it was, and
    the key [confidence] is gone. *)
Lemma feedback_result_shape_witness :
  exists d fv sv,
    VDict [(lit "feedback", VStr (lit "Clear and correct."));
           (lit "score", VStr (lit "7"));
           (lit "confidence", VFloat (float_of_decimal false 9 (-1)))]
    = VDict d
    /\ dict_get (lit "feedback") d = Some fv
    /\ dict_get (lit "score") d = Some sv
    /\ VDict [(lit "feedback", VStr (lit "Clear and correct."));
              (lit "score", VStr (lit "7"))]
       = VDict [(lit "feedback", fv); (lit "score", sv)].
Proof.
  eapply (@feedback_result_shape ascii_db sample_feedback_template
            sample_format (answers feedback_text)
            sample_question sample_answer sample_job sample_resume).
  - run.
  - run.
  - run.
Defined.

(** The score 11 is a number, and out of range. *)
Lemma out_of_range_message_witness :
  get_feedback_of_candidate_response ascii_db sample_feedback_template
    sample_format (answers high_score_text)
    sample_question sample_answer sample_job sample_resume
  = raise_analysis
      (lit "Feedback generation failed: Score must be a number: 11").
Proof.
  edestruct (@out_of_range_message ascii_db sample_feedback_template
               sample_format (answers high_score_text)
               sample_question sample_answer sample_job sample_resume)
    as (H & _).
  - run.
  - run.
  - run.
  - run.
  - run.
  - run.
  - exact H.
Defined.

Lemma next_question_returned_witness :
  get_next_question ascii_db sample_question_template sample_format
    (answers question_text)
    sample_question sample_answer sample_resume sample_job
  = Ok (VStr (lit "How would you avoid a deadlock?")).
Proof.
  edestruct (@next_question_returned ascii_db sample_question_template
               sample_format (answers question_text)
               sample_question sample_answer sample_resume sample_job)
    as (H & _).
  - run.
  - run.
  - apply H. eexists. split; [reflexivity | run].
Defined.

(** C9 as stated fails: the value of [next_question] is returned as it
    is, and it need not be a string. *)
Lemma next_question_not_a_string :
  get_next_question ascii_db sample_question_template sample_format
    (answers numeric_question_text)
    sample_question sample_answer sample_resume sample_job
  = Ok (VInt 5)
  /\ forall s, VInt 5 <> VStr s.
Proof. split; [run | discriminate]. Qed.

(** The question arrives first, the feedback second, both before the
    deadline. *)
Lemma combined_result_order_witness :
  analyze_candidate_response_and_generate_new_question ascii_db
    sample_question_template sample_feedback_template sample_format
    (answers feedback_text) (answers question_text)
    sample_question sample_answer sample_job sample_resume
    ([QuestionDone; FeedbackDone] ++ [DeadlineReached])
  = Some (Ok (VStr (lit "How would you avoid a deadlock?"),
              VDict [(lit "feedback", VStr (lit "Clear and correct."));
                     (lit "score", VStr (lit "7"))])).
Proof.
  apply (@combined_result_order ascii_db sample_question_template
           sample_feedback_template sample_format
           (answers feedback_text) (answers question_text)
           sample_question sample_answer sample_job sample_resume
           [QuestionDone; FeedbackDone] [DeadlineReached]).
  - run.
  - run.
  - simpl; auto.
  - simpl; auto.
  - intros [H|[H|[]]]; discriminate.
Defined.

(** The feedback arrives, then the deadline, then the question. *)
Lemma combined_timeout_witness :
  still_waiting
    (get_feedback_of_candidate_response ascii_db sample_feedback_template
       sample_format (answers feedback_text)
       sample_question sample_answer sample_job sample_resume)
    (get_next_question ascii_db sample_question_template sample_format
       (answers question_text)
       sample_question sample_answer sample_resume sample_job)
    [FeedbackDone]
  /\ analyze_candidate_response_and_generate_new_question ascii_db
       sample_question_template sample_feedback_template sample_format
       (answers feedback_text) (answers question_text)
       sample_question sample_answer sample_job sample_resume
       ([FeedbackDone] ++ DeadlineReached :: [QuestionDone])
     = Some (raise_analysis (lit "LLM operations timed out")).
Proof.
  assert (Hw : still_waiting
                 (get_feedback_of_candidate_response ascii_db
                    sample_feedback_template sample_format
                    (answers feedback_text)
                    sample_question sample_answer sample_job sample_resume)
                 (get_next_question ascii_db sample_question_template
                    sample_format (answers question_text)
                    sample_question sample_answer sample_resume sample_job)
                 [FeedbackDone]) by run.
  split; [exact Hw|].
  apply (@combined_timeout ascii_db sample_question_template
           sample_feedback_template sample_format
           (answers feedback_text) (answers question_text)
           sample_question sample_answer sample_job sample_resume
           [FeedbackDone] [QuestionDone] Hw).
Defined.

(** A run that ends before the deadline: the feedback call fails first,
    the operation reports that failure at once, and the deadline that
    comes later in the schedule is never waited for. *)
Lemma failure_before_deadline :
  ~ still_waiting
      (get_feedback_of_candidate_response ascii_db sample_feedback_template
         sample_format (answers empty_object_text)
         sample_question sample_answer sample_job sample_resume)
      (get_next_question ascii_db sample_question_template sample_format
         (answers question_text)
         sample_question sample_answer sample_resume sample_job)
      [FeedbackDone]
  /\ analyze_candidate_response_and_generate_new_question ascii_db
       sample_question_template sample_feedback_template sample_format
       (answers empty_object_text) (answers question_text)
       sample_question sample_answer sample_job sample_resume
       ([FeedbackDone] ++ DeadlineReached :: [QuestionDone])
     = Some (raise_analysis
               (lit "Response analysis failed: Feedback generation failed: Missing fields: ['feedback', 'score']")).
Proof.
  split; [|run].
  unfold still_waiting. vm_compute. discriminate.
Qed.

(** The remote model refuses the call: the refusal reaches the caller of
    [get_next_question] inside an InterviewAnalysisError. *)
Lemma single_error_kind_witness :
  exists e,
    get_next_question ascii_db sample_question_template sample_format
      (fails quota_error)
      sample_question sample_answer sample_resume sample_job = Raise e
    /\ surfaces quota_error e.
Proof.
  destruct (@single_error_kind ascii_db sample_question_template
              sample_feedback_template sample_format
              (answers feedback_text) (fails quota_error)
              sample_question sample_answer sample_job sample_resume)
    as (_ & H & _).
  apply H. eapply transport_failed; run.
Defined.

(** C1 as stated fails: what is kept is the message of the layer, not
    the message of the exception the layer has caught.  [float] refuses
    the score "high" with a message of its own, and the range test
    refuses the score 11 with "Score out of range"; neither message is
    in the error the caller gets. *)
Lemma inner_cause_not_embedded :
  (py_float ascii_db (VStr (lit "high"))
   = Raise (Exn ValueError
                (lit "could not convert string to float: 'high'"))
   /\ get_feedback_of_candidate_response ascii_db sample_feedback_template
        sample_format (answers word_score_text)
        sample_question sample_answer sample_job sample_resume
      = raise_analysis
          (lit "Feedback generation failed: Score must be a number: high")
   /\ ~ embeds (lit "could not convert string to float: 'high'")
               (lit "Feedback generation failed: Score must be a number: high"))
  /\ (exists f,
         py_float ascii_db (VInt 11) = Ok f
         /\ score_in_range f = false
         /\ get_feedback_of_candidate_response ascii_db
              sample_feedback_template sample_format
              (answers high_score_text)
              sample_question sample_answer sample_job sample_resume
            = raise_analysis
                (lit "Feedback generation failed: Score must be a number: 11")
         /\ ~ embeds (lit "Score out of range")
                     (lit "Feedback generation failed: Score must be a number: 11")).
Proof.
  split; [split; [run | split; [run|]] | eexists; split; [run|]].
  - intros H. apply embeds_contains in H. vm_compute in H. discriminate.
  - split; [run | split; [run|]].
    intros H. apply embeds_contains in H. vm_compute in H. discriminate.
Qed.

(** * Further properties *)

(** ** More on the normaliser and the gateway *)

Lemma find_char_none (c : char) (s : pystr) : ~ In c s -> find [c] s = None.
Proof.
  induction s as [|a s IH]; intros H; [reflexivity|].
  cbn [find startswith].
  destruct (N.eqb_spec c a) as [->|Hne].
  - exfalso. apply H. now left.
  - cbn. rewrite IH; [reflexivity|]. intros H'. apply H. now right.
Qed.

Lemma clean_incl (r : pystr) (x : char) :
  In x (strip (replace fence [] (replace fence_json [] r))) -> In x r.
Proof.
  intros H. unfold strip in H.
  apply rstrip_incl, lstrip_incl in H.
  apply replace_incl in H; [|discriminate].
  apply replace_incl in H; [|discriminate].
  exact H.
Qed.

(** X1. A response that has no opening brace, or no closing brace, is
    never handed to the JSON decoder: [parse_json_response] gives
    [None]. *)
Theorem parse_without_braces (r : pystr) :
  ~ In (chr "{") r \/ ~ In (chr "}") r ->
  parse_json_response (VStr r) = VNone.
Proof.
  intros H. unfold parse_json_response.
  set (clean := strip (replace fence [] (replace fence_json [] r))).
  assert (E : contains lbrace clean && contains rbrace clean = false).
  { unfold contains, lbrace, rbrace.
    destruct H as [H|H].
    - change (lit "{") with [chr "{"].
      rewrite find_char_none; [reflexivity|].
      intros Hin. apply H. now apply clean_incl.
    - change (lit "}") with [chr "}"].
      rewrite (@find_char_none (chr "}")).
      + apply andb_false_r.
      + intros Hin. apply H. now apply clean_incl. }
  now rewrite E.
Qed.


Lemma replace_split (old a b : pystr) (c : char) :
  old <> [] -> ~ In c old ->
  replace old [] (a ++ c :: b) = replace old [] a ++ c :: replace old [] b.
Proof.
  intros Hne Hc. destruct old as [|o old]; [congruence|]. unfold replace.
  rewrite replace_from_app by (assumption || lia). f_equal.
  cbn [replace_from]. change (c :: b) with ([] ++ c :: b).
  now rewrite startswith_cut by assumption.
Qed.

(** The cleaning steps of [parse_json_response] around an opening
    brace. *)
Lemma clean_split (a b : pystr) :
  exists a' b',
    strip (replace fence [] (replace fence_json [] (a ++ chr "{" :: b)))
    = a' ++ chr "{" :: b'
    /\ (forall x, In x a' -> In x a) /\ (forall x, In x b' -> In x b).
Proof.
  destruct (not_in_fence (or_introl (eq_refl (chr "{")))) as [Hl1 Hl2].
  rewrite !replace_split by (assumption || discriminate).
  set (A := replace fence [] (replace fence_json [] a)).
  set (B := replace fence [] (replace fence_json [] b)).
  exists (lstrip A), (rstrip B). split; [|split].
  - unfold strip. rewrite lstrip_app by reflexivity.
    now rewrite rstrip_app by reflexivity.
  - intros x Hx. apply lstrip_incl in Hx.
    apply replace_incl in Hx; [|discriminate].
    apply replace_incl in Hx; [assumption|discriminate].
  - intros x Hx. apply rstrip_incl in Hx.
    apply replace_incl in Hx; [|discriminate].
    apply replace_incl in Hx; [assumption|discriminate].
Qed.

Lemma rfind_char_before (c : char) (a t : pystr) :
  ~ In c t -> rfind [c] (a ++ t) = rfind [c] a.
Proof.
  intros H. induction a as [|x a IH].
  - cbn [app]. now rewrite rfind_char_none.
  - cbn [app rfind startswith]. now rewrite IH.
Qed.

Lemma rfind_char_bound (c : char) (a : pystr) (j : nat) :
  rfind [c] a = Some j -> (j < length a)%nat.
Proof.
  revert j. induction a as [|x a IH]; intros j; [discriminate|].
  cbn [rfind length].
  destruct (rfind [c] a) as [i|].
  - intros [= <-]. specialize (IH i eq_refl). lia.
  - destruct (startswith [c] (x :: a)); [|discriminate].
    intros [= <-]. lia.
Qed.

(** X2. Braces in the wrong order: when no closing brace follows the
    first opening brace, the slice between the first opening and the
    last closing brace is empty or undefined, and [parse_json_response]
    gives [None]. *)
Theorem parse_braces_reversed (a b : pystr) :
  ~ In (chr "{") a -> ~ In (chr "}") b ->
  parse_json_response (VStr (a ++ chr "{" :: b)) = VNone.
Proof.
  intros Ha Hb. unfold parse_json_response.
  destruct (clean_split a b) as (a' & b' & -> & Ha' & Hb').
  destruct (contains lbrace (a' ++ chr "{" :: b')
            && contains rbrace (a' ++ chr "{" :: b')); [|reflexivity].
  unfold brace_slice, lbrace, rbrace.
  change (lit "{") with [chr "{"]. change (lit "}") with [chr "}"].
  rewrite find_char_app by (intros H; auto).
  rewrite rfind_char_before.
  2:{ intros [H|H]; [discriminate | auto]. }
  destruct (rfind [chr "}"] a') as [j|] eqn:Ej; [|reflexivity].
  apply rfind_char_bound in Ej. unfold slice.
  replace (j + 1 - length a')%nat with O by lia. reflexivity.
Qed.

(** [_make_llm_call_async] without the branches that are never taken. *)
Lemma llm_call_eq (generate : pystr -> result pystr) (prompt : pystr) :
  _make_llm_call_async generate prompt
  = match generate prompt with
    | Raise c =>
        raise_analysis
          (lit "Failed to get LLM response: Gemini API call failed: "
             ++ exn_str c)
    | Ok text =>
        match parse_json_response (VStr text) with
        | VDict d => Ok (VDict d)
        | _ =>
            raise_analysis
              (lit "Failed to get LLM response: LLM returned None instead of valid JSON")
        end
    end.
Proof.
  unfold _make_llm_call_async, get_response_from_llm.
  destruct (generate prompt) as [text|c]; cbn [bind].
  - destruct (parse_json_response_shape (VStr text)) as [E|[d E]];
      now rewrite E.
  - cbn [rewrap exn_str]. now rewrite app_assoc.
Qed.

(** X3. [_make_llm_call_async] has three outcomes and no other: a
    mapping; the failure of the remote model, under two prefixes; the
    one message for a text that holds no JSON object. The fallback
    parser of [_safe_json_parse] and its "unsupported format" branch are
    never reached from here. *)
Theorem llm_call_outcomes (generate : pystr -> result pystr)
    (prompt : pystr) :
  (exists text d,
      generate prompt = Ok text
      /\ parse_json_response (VStr text) = VDict d
      /\ _make_llm_call_async generate prompt = Ok (VDict d))
  \/ (exists c,
         generate prompt = Raise c
         /\ _make_llm_call_async generate prompt
            = raise_analysis
                (lit "Failed to get LLM response: Gemini API call failed: "
                   ++ exn_str c))
  \/ (exists text,
         generate prompt = Ok text
         /\ parse_json_response (VStr text) = VNone
         /\ _make_llm_call_async generate prompt
            = raise_analysis
                (lit "Failed to get LLM response: LLM returned None instead of valid JSON")).
Proof.
  rewrite llm_call_eq.
  destruct (generate prompt) as [text|c].
  - destruct (parse_json_response_shape (VStr text)) as [E|[d E]];
      rewrite E.
    + right. right. exists text. auto.
    + left. exists text, d. auto.
  - right. left. exists c. auto.
Qed.

(** X4. [_safe_json_parse] on its own returns a mapping, with one
    exception: a [str] whose stripped text is a complete JSON document
    is decoded and returned as it is, whatever its type. *)
Theorem safe_json_parse_result (data v : pyval) :
  _safe_json_parse data = Ok v ->
  (exists d, v = VDict d)
  \/ (exists s, data = VStr s /\ json_loads (strip s) = Some v).
Proof.
  destruct data as [| | | |s|l|d]; cbn [_safe_json_parse]; try discriminate.
  - destruct (json_loads (strip s)) as [w|] eqn:E.
    + intros [= <-]. right. eauto.
    + destruct (brace_slice (strip s)) as [js|] eqn:Eb; [|discriminate].
      destruct (json_loads js) as [w|] eqn:Ej; [|discriminate].
      intros [= <-]. left. eapply brace_slice_loads; eassumption.
  - intros [= <-]. left. eauto.
Qed.

Lemma strip_sandwich (p mid s : pystr) :
  exists a b,
    strip (p ++ chr "{" :: mid ++ chr "}" :: s)
    = a ++ chr "{" :: mid ++ chr "}" :: b
    /\ (forall x, In x a -> In x p) /\ (forall x, In x b -> In x s).
Proof.
  exists (lstrip p), (rstrip s). split; [|split].
  - unfold strip. rewrite lstrip_app by reflexivity.
    change (lstrip p ++ chr "{" :: mid ++ chr "}" :: s)
      with (lstrip p ++ (chr "{" :: mid) ++ chr "}" :: s).
    rewrite app_assoc. rewrite rstrip_app by reflexivity.
    now rewrite <- app_assoc.
  - apply lstrip_incl.
  - apply rstrip_incl.
Qed.

(** X5. The fallback of [_safe_json_parse]: a [str] that is no JSON
    document but holds a JSON object, with no opening brace before it
    and no closing brace after it, gives that object. *)
Theorem safe_json_parse_extracts (p mid s : pystr) (o : dict) :
  let j := chr "{" :: mid ++ [chr "}"] in
  json_loads j = Some (VDict o) ->
  ~ In (chr "{") p -> ~ In (chr "}") s ->
  json_loads (strip (p ++ j ++ s)) = None ->
  _safe_json_parse (VStr (p ++ j ++ s)) = Ok (VDict o).
Proof.
  intros j Hj Hp Hs Hnone. cbn [_safe_json_parse]. rewrite Hnone.
  unfold j. cbn [app]. rewrite <- app_assoc. cbn [app].
  destruct (strip_sandwich p mid s) as (a & b & -> & Ha & Hb).
  rewrite brace_slice_sandwich by (intros H; auto).
  fold j. now rewrite Hj.
Qed.

Lemma parse_json_response_bare (mid : pystr) :
  find fence (chr "{" :: mid ++ [chr "}"]) = None ->
  parse_json_response (VStr (chr "{" :: mid ++ [chr "}"]))
  = match json_loads (chr "{" :: mid ++ [chr "}"]) with
    | Some v => v
    | None => VNone
    end.
Proof.
  intros H.
  rewrite <- (@parse_json_response_sandwich [] mid []); auto.
  now rewrite app_nil_r.
Qed.

Lemma contains_false (sub s : pystr) :
  contains sub s = false -> find sub s = None.
Proof. unfold contains. now destruct (find sub s). Qed.

Section Gateway.

Variable db : unicode_db.
Variable next_question_generation : pystr.
Variable feedback_generation : pystr.
Variable str_format : pystr -> list (pystr * pystr) -> result pystr.

(** X6. A model that wraps its JSON object [j] in other text, prose or
    fences with no opening brace before the object and no closing brace
    after it, gets from both operations the outcome it would get for [j]
    alone, success or failure. *)
Theorem wrapped_reply_transparent (p mid s q cr jd rh : pystr) :
  let j := chr "{" :: mid ++ [chr "}"] in
  contains fence j = false ->
  ~ In (chr "{") p -> ~ In (chr "}") s ->
  get_next_question db next_question_generation str_format
    (answers (p ++ j ++ s)) q cr rh jd
  = get_next_question db next_question_generation str_format
      (answers j) q cr rh jd
  /\ get_feedback_of_candidate_response db feedback_generation str_format
       (answers (p ++ j ++ s)) q cr jd rh
     = get_feedback_of_candidate_response db feedback_generation str_format
         (answers j) q cr jd rh.
Proof.
  intros j Hf Hp Hs. apply contains_false in Hf.
  assert (E : parse_json_response (VStr (p ++ j ++ s))
              = parse_json_response (VStr j)).
  { unfold j. rewrite parse_json_response_sandwich by assumption.
    now rewrite parse_json_response_bare. }
  unfold get_next_question, get_feedback_of_candidate_response,
    _make_llm_call_async, get_response_from_llm, answers.
  cbv beta. cbn [bind]. now rewrite E.
Qed.

Variable generate : pystr -> result pystr.

(** X7. [get_next_question] has five outcomes and no other, each with
    its exact message; the check that the response is a mapping never
    fails. *)
Theorem next_question_outcomes (q cr rh jd : pystr) :
  let prompt :=
    next_question_prompt next_question_generation str_format q cr rh jd in
  let outcome :=
    get_next_question db next_question_generation str_format generate
      q cr rh jd in
  (exists c,
      prompt = Raise c
      /\ outcome
         = raise_analysis (lit "Question generation failed: " ++ exn_str c))
  \/ (exists p c,
         prompt = Ok p /\ generate p = Raise c
         /\ outcome
            = raise_analysis
                (lit "Question generation failed: Failed to get LLM response: Gemini API call failed: "
                   ++ exn_str c))
  \/ (exists p text,
         prompt = Ok p /\ generate p = Ok text
         /\ parse_json_response (VStr text) = VNone
         /\ outcome
            = raise_analysis
                (lit "Question generation failed: Failed to get LLM response: LLM returned None instead of valid JSON"))
  \/ (exists p text d,
         prompt = Ok p /\ generate p = Ok text
         /\ parse_json_response (VStr text) = VDict d
         /\ dict_get (lit "next_question") d = None
         /\ outcome
            = raise_analysis
                (lit "Question generation failed: Missing 'next_question' in LLM output: "
                   ++ py_repr db (VDict d)))
  \/ (exists p text d v,
         prompt = Ok p /\ generate p = Ok text
         /\ parse_json_response (VStr text) = VDict d
         /\ dict_get (lit "next_question") d = Some v
         /\ outcome = Ok v).
Proof.
  intros prompt outcome. unfold outcome, get_next_question. fold prompt.
  destruct prompt as [p|c]; cbn [bind].
  2:{ left. exists c. auto. }
  right.
  rewrite llm_call_eq.
  destruct (generate p) as [text|c] eqn:Hg.
  - destruct (parse_json_response_shape (VStr text)) as [Hn|[d Hd]].
    + rewrite Hn. right. left. exists p, text. auto.
    + rewrite Hd. cbn [bind]. right. right.
      unfold next_question_of, dict_mem, dict_item.
      destruct (dict_get (lit "next_question") d) as [v|] eqn:Ev;
        cbn [negb].
      * right. exists p, text, d, v. auto.
      * left. exists p, text, d.
        repeat (split; [assumption || reflexivity|]).
        rewrite rewrap_raise. now rewrite app_assoc.
  - left. exists p, c. repeat (split; [assumption || reflexivity|]).
    unfold raise_analysis. cbn [bind rewrap exn_str].
    unfold raise_analysis. now rewrite app_assoc.
Qed.

(** X8. [get_feedback_of_candidate_response] has six outcomes and no
    other, each with its exact message; the check that the response is a
    mapping never fails, and no [KeyError] is ever raised. *)
Theorem feedback_outcomes (q cr jd rh : pystr) :
  let prompt :=
    feedback_prompt feedback_generation str_format q cr jd rh in
  let outcome :=
    get_feedback_of_candidate_response db feedback_generation str_format
      generate q cr jd rh in
  (exists c,
      prompt = Raise c
      /\ outcome
         = raise_analysis (lit "Feedback generation failed: " ++ exn_str c))
  \/ (exists p c,
         prompt = Ok p /\ generate p = Raise c
         /\ outcome
            = raise_analysis
                (lit "Feedback generation failed: Failed to get LLM response: Gemini API call failed: "
                   ++ exn_str c))
  \/ (exists p text,
         prompt = Ok p /\ generate p = Ok text
         /\ parse_json_response (VStr text) = VNone
         /\ outcome
            = raise_analysis
                (lit "Feedback generation failed: Failed to get LLM response: LLM returned None instead of valid JSON"))
  \/ (exists p text d,
         prompt = Ok p /\ generate p = Ok text
         /\ parse_json_response (VStr text) = VDict d
         /\ dict_mem (lit "feedback") d && dict_mem (lit "score") d = false
         /\ outcome
            = raise_analysis
                (lit "Feedback generation failed: Missing fields: "
                   ++ py_repr db
                        (VList
                           (map VStr
                              (filter (fun f => negb (dict_mem f d))
                                 [lit "feedback"; lit "score"])))))
  \/ (exists p text d fv sv,
         prompt = Ok p /\ generate p = Ok text
         /\ parse_json_response (VStr text) = VDict d
         /\ dict_get (lit "feedback") d = Some fv
         /\ dict_get (lit "score") d = Some sv
         /\ score_ok db sv = false
         /\ outcome
            = raise_analysis
                (lit "Feedback generation failed: Score must be a number: "
                   ++ py_str db sv))
  \/ (exists p text d fv sv,
         prompt = Ok p /\ generate p = Ok text
         /\ parse_json_response (VStr text) = VDict d
         /\ dict_get (lit "feedback") d = Some fv
         /\ dict_get (lit "score") d = Some sv
         /\ score_ok db sv = true
         /\ outcome = Ok (VDict [(lit "feedback", fv); (lit "score", sv)])).
Proof.
  intros prompt outcome.
  unfold outcome, get_feedback_of_candidate_response. fold prompt.
  destruct prompt as [p|c]; cbn [bind].
  2:{ left. exists c. auto. }
  right.
  rewrite llm_call_eq.
  destruct (generate p) as [text|c] eqn:Hg.
  - destruct (parse_json_response_shape (VStr text)) as [Hn|[d Hd]].
    + rewrite Hn. right. left. exists p, text. auto.
    + rewrite Hd. cbn [bind]. right. right.
      destruct (dict_get (lit "feedback") d) as [fv|] eqn:Ef;
        [destruct (dict_get (lit "score") d) as [sv|] eqn:Es|].
      * right. erewrite feedback_of_present by eassumption.
        destruct (score_ok db sv) eqn:Eok.
        -- right. exists p, text, d, fv, sv. auto 10.
        -- left. exists p, text, d, fv, sv.
           repeat (split; [assumption || reflexivity|]).
           rewrite rewrap_raise. now rewrite app_assoc.
      * left. exists p, text, d.
        assert (Hm : dict_mem (lit "feedback") d
                     && dict_mem (lit "score") d = false)
          by (unfold dict_mem; now rewrite Ef, Es).
        repeat (split; [assumption || reflexivity|]).
        rewrite feedback_of_missing by exact Hm.
        rewrite rewrap_raise. now rewrite app_assoc.
      * left. exists p, text, d.
        assert (Hm : dict_mem (lit "feedback") d
                     && dict_mem (lit "score") d = false)
          by (unfold dict_mem; now rewrite Ef).
        repeat (split; [assumption || reflexivity|]).
        rewrite feedback_of_missing by exact Hm.
        rewrite rewrap_raise. now rewrite app_assoc.
  - left. exists p, c. repeat (split; [assumption || reflexivity|]).
    unfold raise_analysis. cbn [bind rewrap exn_str].
    unfold raise_analysis. now rewrite app_assoc.
Qed.

End Gateway.

(** ** Integer scores

    [float(z)] for an integer [z] is followed through the rounding of
    [SpecFloat]: the sign of the result is the sign of [z], its mantissa
    is positive, and its exponent is at least the number of binary
    digits of [z] less 53. *)

Local Open Scope Z_scope.

Lemma digits2_pos_iter_xO (k p : positive) :
  digits2_pos (Pos.iter xO p k) = (digits2_pos p + k)%positive.
Proof.
  induction k as [|k IH] using Pos.peano_ind.
  - cbn. lia.
  - rewrite Pos.iter_succ. cbn [digits2_pos]. rewrite IH. lia.
Qed.

Lemma digits2_pos_bound (p : positive) :
  Zpos p < 2 ^ Zpos (digits2_pos p).
Proof.
  induction p as [p IH|p IH|]; cbn [digits2_pos];
    try (rewrite Pos2Z.inj_succ, Z.pow_succ_r by lia; lia).
  reflexivity.
Qed.

Lemma shr_1_digits (mrs : shr_record) (k : Z) :
  0 < k -> 0 < shr_m mrs -> Zdigits2 (shr_m mrs) = k + 1 ->
  0 < shr_m (shr_1 mrs) /\ Zdigits2 (shr_m (shr_1 mrs)) = k.
Proof.
  destruct mrs as [m r s]. cbn [shr_m]. intros Hk Hm Hd.
  destruct m as [|q|q]; try lia.
  destruct q as [q|q|]; cbn [shr_1 shr_m Zdigits2 digits2_pos] in *;
    rewrite ?Pos2Z.inj_succ in Hd; lia.
Qed.

Lemma iter_shr_digits (n : positive) :
  forall (mrs : shr_record) (k : Z),
    0 < k -> 0 < shr_m mrs -> Zdigits2 (shr_m mrs) = k + Zpos n ->
    0 < shr_m (iter_pos shr_1 n mrs)
    /\ Zdigits2 (shr_m (iter_pos shr_1 n mrs)) = k.
Proof.
  induction n as [n IH|n IH|]; intros mrs k Hk Hm Hd; cbn [iter_pos].
  - destruct (@shr_1_digits mrs (k + Zpos n + Zpos n)) as [H1 H2];
      try lia.
    destruct (IH (shr_1 mrs) (k + Zpos n)) as [H3 H4]; try lia.
    apply IH; lia.
  - destruct (IH mrs (k + Zpos n)) as [H3 H4]; try lia.
    apply IH; lia.
  - apply shr_1_digits; assumption.
Qed.

Lemma shr_record_of_loc_m (m : Z) (l : location) :
  shr_m (shr_record_of_loc m l) = m.
Proof. destruct l as [|[]]; reflexivity. Qed.

(** The shift to the exponent of the format keeps the mantissa positive
    when the number is not below the smallest subnormal. *)
Lemma shr_fexp_positive (q : positive) (e : Z) (l : location) :
  -1074 < Zpos (digits2_pos q) + e ->
  forall mrs e',
    shr_fexp prec emax (Zpos q) e l = (mrs, e') ->
    0 < shr_m mrs /\ e <= e' /\ Zpos (digits2_pos q) + e - 53 <= e'
    /\ -1074 <= e'.
Proof.
  intros H mrs e'. unfold shr_fexp, shr, fexp, emin, prec, emax.
  cbn [Zdigits2].
  destruct (Z.max (Zpos (digits2_pos q) + e - 53) (3 - 1024 - 53) - e)
    as [|n|n] eqn:En; intros [= <- <-].
  - rewrite shr_record_of_loc_m. lia.
  - destruct (@iter_shr_digits n (shr_record_of_loc (Zpos q) l)
                (Zpos (digits2_pos q) - Zpos n)) as [H1 H2];
      rewrite ?shr_record_of_loc_m; cbn [Zdigits2]; try lia.
  - rewrite shr_record_of_loc_m. lia.
Qed.

Lemma round_nearest_even_positive (m : Z) (l : location) :
  0 < m -> 0 < round_nearest_even m l.
Proof.
  intros H. destruct l as [|[]]; cbn [round_nearest_even];
    try destruct (Z.even m); lia.
Qed.

Lemma binary_round_aux_shape (sx : bool) (q : positive) (e : Z) :
  -1074 < Zpos (digits2_pos q) + e ->
  binary_round_aux prec emax sx (Zpos q) e loc_Exact = S754_infinity sx
  \/ exists m e',
       binary_round_aux prec emax sx (Zpos q) e loc_Exact
       = S754_finite sx m e'
       /\ Zpos (digits2_pos q) + e - 53 <= e'.
Proof.
  intros H. unfold binary_round_aux.
  destruct (shr_fexp prec emax (Zpos q) e loc_Exact) as [mrs1 e1] eqn:E1.
  destruct (@shr_fexp_positive q e loc_Exact H mrs1 e1 E1)
    as (Hm1 & He1 & Hd1 & Hl1).
  pose proof (@round_nearest_even_positive (shr_m mrs1)
                (loc_of_shr_record mrs1) Hm1) as Hm2.
  destruct (round_nearest_even (shr_m mrs1) (loc_of_shr_record mrs1))
    as [|q2|q2]; try lia.
  destruct (shr_fexp prec emax (Zpos q2) e1 loc_Exact) as [mrs2 e2] eqn:E2.
  assert (H2 : -1074 < Zpos (digits2_pos q2) + e1) by lia.
  destruct (@shr_fexp_positive q2 e1 loc_Exact H2 mrs2 e2 E2)
    as (Hm3 & He2 & Hd2 & Hl2).
  destruct (shr_m mrs2) as [|q3|q3]; try lia.
  destruct (e2 <=? emax - prec); [right | now left].
  exists q3, e2. split; [reflexivity | lia].
Qed.

Lemma binary_round_shape (sx : bool) (p : positive) :
  binary_round prec emax sx p 0 = S754_infinity sx
  \/ exists m e',
       binary_round prec emax sx p 0 = S754_finite sx m e'
       /\ Zpos (digits2_pos p) - 53 <= e'.
Proof.
  unfold binary_round, shl_align, fexp, emin, prec, emax.
  assert (H0 : -1074 < Zpos (digits2_pos p) + 0) by lia.
  destruct (Z.max (Zpos (digits2_pos p) + 0 - 53) (3 - 1024 - 53) - 0)
    as [|k|k] eqn:Ek.
  - destruct (@binary_round_aux_shape sx _ _ H0) as [E|(m & e' & E & He)];
      [now left | right].
    exists m, e'. split; [exact E | lia].
  - destruct (@binary_round_aux_shape sx _ _ H0) as [E|(m & e' & E & He)];
      [now left | right].
    exists m, e'. split; [exact E | lia].
  - assert (Hk : -1074 < Zpos (digits2_pos (Pos.iter xO p k))
                         + Z.max (Zpos (digits2_pos p) + 0 - 53)
                                 (3 - 1024 - 53)).
    { rewrite digits2_pos_iter_xO. lia. }
    destruct (@binary_round_aux_shape sx _ _ Hk) as [E|(m & e' & E & He)];
      [now left | right].
    exists m, e'. split; [exact E|].
    rewrite digits2_pos_iter_xO in He. lia.
Qed.

(** An integer passes the check of the score exactly when it lies
    between 0 and 10. *)
Lemma int_score_ok (db : unicode_db) (z : Z) :
  score_ok db (VInt z) = true <-> 0 <= z <= 10.
Proof.
  unfold score_ok, py_float, float_of_Z, binary_normalize.
  destruct z as [|p|p].
  - split; [lia | reflexivity].
  - destruct (Z_lt_le_dec (Zpos p) 16) as [Hs|Hb].
    + assert (Hp : In p [1; 2; 3; 4; 5; 6; 7; 8; 9; 10; 11; 12; 13; 14; 15]%positive).
      { cbn [In]. lia. }
      cbn [In] in Hp.
      repeat (destruct Hp as [<-|Hp]; [vm_compute; split; [intros _; split; discriminate | reflexivity] |]);
      repeat (destruct Hp as [<-|Hp]; [vm_compute; split; [discriminate | intros [_ H]; exfalso; apply H; reflexivity] |]).
      contradiction.
    + assert (Hd : 4 < Zpos (digits2_pos p)).
      { pose proof (digits2_pos_bound p) as B.
        apply (Z.pow_lt_mono_r_iff 2); lia. }
      destruct (binary_round_shape false p) as [->|(m & e' & -> & He)].
      * split; [discriminate | lia].
      * split; [|lia]. unfold score_in_range, float_leb.
        change (float_of_Z 10)
          with (S754_finite false 5629499534213120 (-49)).
        replace (SFleb (S754_finite false m e')
                       (S754_finite false 5629499534213120 (-49)))
          with false; [rewrite andb_false_r; discriminate|].
        unfold SFleb, SFcompare.
        destruct (Z.compare_spec e' (-49)); (lia || reflexivity).
  - destruct (binary_round_shape true p) as [->|(m & e' & -> & He)].
    + split; [discriminate | lia].
    + split; [discriminate | lia].
Qed.


(** ** Scores written as strings of digits *)

Lemma is_digit_range (c : char) :
  is_digit c = true -> (48 <= c /\ c <= 57)%N.
Proof.
  unfold is_digit. rewrite andb_true_iff, !N.leb_le. trivial.
Qed.

Lemma span_digits_all (ds : pystr) :
  forallb is_digit ds = true -> span_digits ds = (ds, []).
Proof.
  induction ds as [|c t IH]; [reflexivity|].
  cbn [forallb span_digits]. rewrite andb_true_iff. intros [-> Ht].
  now rewrite IH.
Qed.

Lemma to_ascii_decimal_digits (db : unicode_db) (ds : pystr) :
  forallb is_digit ds = true -> to_ascii_decimal db ds = Some ds.
Proof.
  induction ds as [|c t IH]; [reflexivity|].
  cbn [forallb to_ascii_decimal]. rewrite andb_true_iff. intros [Hc Ht].
  apply is_digit_range in Hc.
  replace (c <? 127)%N with true by (symmetry; apply N.ltb_lt; lia).
  now rewrite IH.
Qed.

Lemma drop_underscores_digits (ds : pystr) :
  forallb is_digit ds = true ->
  forall prev, (prev =? chr "_")%N = false ->
               drop_underscores prev ds = Some ds.
Proof.
  induction ds as [|c t IH]; intros H prev Hprev; cbn [drop_underscores].
  - now rewrite Hprev.
  - cbn [forallb] in H. apply andb_true_iff in H. destruct H as [Hc Ht].
    assert (Hu : (c =? chr "_")%N = false).
    { apply is_digit_range in Hc. apply N.eqb_neq.
      change (chr "_") with 95%N. lia. }
    rewrite Hu, Hprev. cbn [andb]. now rewrite IH.
Qed.

Lemma lstrip_ascii_digits (ds : pystr) :
  forallb is_digit ds = true -> lstrip_ascii ds = ds.
Proof.
  destruct ds as [|c t]; [reflexivity|].
  cbn [forallb lstrip_ascii]. rewrite andb_true_iff. intros [Hc _].
  apply is_digit_range in Hc.
  replace (is_ascii_space c) with false; [reflexivity|].
  symmetry. unfold is_ascii_space.
  rewrite orb_false_iff, andb_false_iff, !N.leb_gt, N.eqb_neq. lia.
Qed.

Lemma forallb_rev_true (A : Type) (f : A -> bool) (l : list A) :
  forallb f l = true -> forallb f (rev l) = true.
Proof.
  rewrite !forallb_forall. intros H x Hx. apply H. now apply in_rev.
Qed.

Lemma float_of_decimal_int (m : N) :
  float_of_decimal false m 0 = float_of_Z (Z.of_N m).
Proof.
  destruct m as [|p]; [reflexivity|].
  unfold float_of_decimal, float_of_Z. cbn [Z.leb Z.compare cond_Zopp Z.of_N].
  now rewrite Z.pow_0_r, Z.mul_1_r.
Qed.

(** [float] reads a string of digits as the integer it writes. *)
Lemma float_of_str_digits (db : unicode_db) (ds : pystr) :
  ds <> [] -> forallb is_digit ds = true ->
  float_of_str db ds = Some (float_of_Z (Z.of_N (digits_value ds))).
Proof.
  intros Hne Hd. unfold float_of_str.
  rewrite to_ascii_decimal_digits by exact Hd.
  rewrite drop_underscores_digits by (exact Hd || reflexivity).
  rewrite (@lstrip_ascii_digits ds) by exact Hd.
  rewrite (@lstrip_ascii_digits (rev ds)) by now apply forallb_rev_true.
  rewrite rev_involutive.
  destruct ds as [|c t]; [contradiction|].
  assert (Hc : (48 <= c /\ c <= 57)%N).
  { cbn [forallb] in Hd. apply andb_true_iff in Hd.
    now apply is_digit_range. }
  unfold parse_float_literal.
  replace (c =? chr "-")%N with false
    by (symmetry; apply N.eqb_neq; change (chr "-") with 45%N; lia).
  replace (c =? chr "+")%N with false
    by (symmetry; apply N.eqb_neq; change (chr "+") with 43%N; lia).
  unfold parse_decimal. rewrite span_digits_all by exact Hd.
  rewrite app_nil_r. cbn [match_exp length Z.of_nat].
  now rewrite <- float_of_decimal_int.
Qed.

Lemma score_in_range_infinity (s : bool) :
  score_in_range (S754_infinity s) = false.
Proof. now destruct s. Qed.

Lemma digits_score_ok (db : unicode_db) (ds : pystr) :
  ds <> [] -> forallb is_digit ds = true ->
  score_ok db (VStr ds) = true <-> (digits_value ds <= 10)%N.
Proof.
  intros Hne Hd.
  assert (E : score_ok db (VStr ds)
              = score_ok db (VInt (Z.of_N (digits_value ds)))).
  { unfold score_ok, py_float. rewrite float_of_str_digits by assumption.
    destruct (float_of_Z (Z.of_N (digits_value ds))); try reflexivity.
    apply score_in_range_infinity. }
  rewrite E, int_score_ok. lia.
Qed.

Section Scores.

Variable db : unicode_db.
Variable feedback_generation : pystr.
Variable str_format : pystr -> list (pystr * pystr) -> result pystr.
Variable generate : pystr -> result pystr.

Let feedback := get_feedback_of_candidate_response
                  db feedback_generation str_format generate.

(** X9. On a normalised mapping with both keys whose score is an
    integer, [get_feedback_of_candidate_response] succeeds exactly when
    the integer lies between 0 and 10, however large or small it is
    otherwise; the refusal shows the integer (one of at most 4300
    digits: the interpreter refuses to write a longer one). *)
Theorem integer_score (q cr jd rh prompt : pystr) (d : dict) (fv : pyval)
    (z : Z) :
  feedback_prompt feedback_generation str_format q cr jd rh = Ok prompt ->
  _make_llm_call_async generate prompt = Ok (VDict d) ->
  dict_get (lit "feedback") d = Some fv ->
  dict_get (lit "score") d = Some (VInt z) ->
  (feedback q cr jd rh
   = Ok (VDict [(lit "feedback", fv); (lit "score", VInt z)])
   <-> 0 <= z <= 10)
  /\ (~ 0 <= z <= 10 -> Z.abs z < 10 ^ 4300 ->
      feedback q cr jd rh
      = raise_analysis
          (lit "Feedback generation failed: Score must be a number: "
             ++ int_str z)).
Proof.
  intros Hp Hc Hf Hs. unfold feedback.
  erewrite feedback_eq by eassumption.
  erewrite feedback_of_present by eassumption.
  pose proof (int_score_ok db z) as Hz.
  destruct (score_ok db (VInt z)); split.
  - split; [intros _; now apply Hz | reflexivity].
  - intros Hn. exfalso. apply Hn. now apply Hz.
  - split; [discriminate|]. intros H. apply Hz in H. discriminate.
  - intros _ _. rewrite rewrap_raise. now rewrite app_assoc.
Qed.

(** X10. A score that is a string of digits is read as the integer it
    writes: it passes exactly when that integer is at most 10, leading
    zeros and length notwithstanding, and it comes back as the string. *)
Theorem digit_string_score (q cr jd rh prompt : pystr) (d : dict)
    (fv : pyval) (ds : pystr) :
  feedback_prompt feedback_generation str_format q cr jd rh = Ok prompt ->
  _make_llm_call_async generate prompt = Ok (VDict d) ->
  dict_get (lit "feedback") d = Some fv ->
  dict_get (lit "score") d = Some (VStr ds) ->
  ds <> [] -> forallb is_digit ds = true ->
  (feedback q cr jd rh
   = Ok (VDict [(lit "feedback", fv); (lit "score", VStr ds)])
   <-> (digits_value ds <= 10)%N)
  /\ (~ (digits_value ds <= 10)%N ->
      feedback q cr jd rh
      = raise_analysis
          (lit "Feedback generation failed: Score must be a number: "
             ++ ds)).
Proof.
  intros Hp Hc Hf Hs Hne Hd. unfold feedback.
  erewrite feedback_eq by eassumption.
  erewrite feedback_of_present by eassumption.
  pose proof (@digits_score_ok db ds Hne Hd) as Hz.
  destruct (score_ok db (VStr ds)); split.
  - split; [intros _; now apply Hz | reflexivity].
  - intros Hn. exfalso. apply Hn. now apply Hz.
  - split; [discriminate|]. intros H. apply Hz in H. discriminate.
  - intros _. rewrite rewrap_raise. now rewrite app_assoc.
Qed.

(** X11. The JSON literals as scores: [true] and [false] pass the check,
    since [float] reads them as 1 and 0, and come back as booleans;
    [null] is refused, and so are [NaN], [Infinity] and [-Infinity],
    which the decoder accepts as floats. *)
Theorem literal_score (q cr jd rh prompt : pystr) (d : dict)
    (fv sv : pyval) :
  feedback_prompt feedback_generation str_format q cr jd rh = Ok prompt ->
  _make_llm_call_async generate prompt = Ok (VDict d) ->
  dict_get (lit "feedback") d = Some fv ->
  dict_get (lit "score") d = Some sv ->
  (forall b, sv = VBool b ->
             feedback q cr jd rh
             = Ok (VDict [(lit "feedback", fv); (lit "score", VBool b)]))
  /\ (sv = VNone ->
      feedback q cr jd rh
      = raise_analysis
          (lit "Feedback generation failed: Score must be a number: None"))
  /\ (sv = VFloat nan ->
      feedback q cr jd rh
      = raise_analysis
          (lit "Feedback generation failed: Score must be a number: nan"))
  /\ (sv = VFloat (inf false) ->
      feedback q cr jd rh
      = raise_analysis
          (lit "Feedback generation failed: Score must be a number: inf"))
  /\ (sv = VFloat (inf true) ->
      feedback q cr jd rh
      = raise_analysis
          (lit "Feedback generation failed: Score must be a number: -inf")).
Proof.
  intros Hp Hc Hf Hs. unfold feedback.
  erewrite feedback_eq by eassumption.
  erewrite feedback_of_present by eassumption.
  split; [|split; [|split; [|split]]].
  - intros b ->. now destruct b.
  - intros ->. reflexivity.
  - intros ->. reflexivity.
  - intros ->. reflexivity.
  - intros ->. reflexivity.
Qed.

End Scores.

(** ** Round trips through the decoder *)

Lemma scanstring_plain (body rest : pystr) :
  forallb plain_char body = true ->
  scanstring (body ++ dquote :: rest) = Some (body, rest).
Proof.
  induction body as [|c body IH]; intros H.
  - cbn [app scanstring]. now rewrite N.eqb_refl.
  - cbn [forallb] in H. apply andb_true_iff in H. destruct H as [Hc Hb].
    unfold plain_char in Hc. rewrite !andb_true_iff, !negb_true_iff in Hc.
    destruct Hc as [[[H1 H2] H3] _].
    cbn [app scanstring]. rewrite H1, H2, H3, IH by assumption. reflexivity.
Qed.

Lemma plain_no_backtick (s : pystr) :
  forallb plain_char s = true -> ~ In (chr "`") s.
Proof.
  rewrite forallb_forall. intros H Hin. apply H in Hin. discriminate.
Qed.

Lemma find_head_absent (c : char) (sub s : pystr) :
  ~ In c s -> find (c :: sub) s = None.
Proof.
  induction s as [|x s IH]; intros H; [reflexivity|].
  cbn [find startswith].
  destruct (N.eqb_spec c x) as [->|Hne].
  - exfalso. apply H. now left.
  - cbn [andb]. rewrite IH; [reflexivity|]. intros H'. apply H. now right.
Qed.

Lemma fuel_four (s : pystr) :
  (2 <= length s)%nat -> exists f, scan_fuel s = S (S (S (S f))).
Proof.
  unfold scan_fuel. intros H. exists (2 * length s - 3)%nat. lia.
Qed.

Lemma loads_question (q : pystr) :
  forallb plain_char q = true ->
  json_loads (jlit "{'next_question': '" ++ q ++ jlit "'}")
  = Some (VDict [(lit "next_question", VStr q)]).
Proof.
  intros Hq.
  change (jlit "{'next_question': '" ++ q ++ jlit "'}")
    with (chr "{" :: dquote
            :: lit "next_question"
            ++ dquote :: chr ":" :: chr " " :: dquote
            :: q ++ dquote :: [chr "}"]).
  unfold json_loads.
  match goal with |- context [scan_fuel ?s] =>
    destruct (@fuel_four s) as [f ->]; [cbn [length]; lia|] end.
  cbn -[scanstring lit].
  rewrite scanstring_plain by reflexivity.
  cbn -[scanstring lit].
  rewrite scanstring_plain by exact Hq.
  reflexivity.
Qed.

Lemma span_digits_app (t r : pystr) :
  forallb is_digit t = true ->
  span_digits (t ++ chr "}" :: r) = (t, chr "}" :: r).
Proof.
  induction t as [|c t IH]; [reflexivity|].
  cbn [forallb app span_digits]. rewrite andb_true_iff. intros [-> Ht].
  now rewrite IH.
Qed.

Lemma is_digit_cases (c : char) :
  is_digit c = true ->
  In c [48; 49; 50; 51; 52; 53; 54; 55; 56; 57]%N.
Proof.
  unfold is_digit. rewrite andb_true_iff, !N.leb_le. cbn [In]. lia.
Qed.

(** The scanner on an integer literal that a closing brace follows. *)
Lemma scan_int_literal (fuel : nat) (neg : bool) (ds r : pystr) :
  int_digits ds = true ->
  scan_once (S fuel) (skip_ws (int_literal neg ds ++ chr "}" :: r))
  = Parsed (VInt (cond_Zopp neg (Z.of_N (digits_value ds)))) (chr "}" :: r).
Proof.
  unfold int_digits, int_literal. destruct ds as [|c t]; [discriminate|].
  cbn [forallb]. rewrite !andb_true_iff. intros [[Hc Ht] Hz].
  apply is_digit_cases in Hc. cbn [In] in Hc.
  pose proof (@span_digits_app t r Ht) as E.
  change (chr "}") with 125%N in E.
  destruct neg, r as [|r0 r];
    repeat (destruct Hc as [<-|Hc];
            [cbn -[span_digits digits_value Z.of_N];
             first [ rewrite E; reflexivity
                   | destruct t; [reflexivity | cbn in Hz; discriminate] ] |]);
    contradiction.
Qed.

Lemma loads_feedback (text : pystr) (neg : bool) (ds : pystr) :
  forallb plain_char text = true -> int_digits ds = true ->
  json_loads (jlit "{'feedback': '" ++ text ++ jlit "', 'score': "
                ++ int_literal neg ds ++ jlit "}")
  = Some (VDict [(lit "feedback", VStr text);
                 (lit "score",
                  VInt (cond_Zopp neg (Z.of_N (digits_value ds))))]).
Proof.
  intros Ht Hd.
  change (jlit "{'feedback': '" ++ text ++ jlit "', 'score': "
            ++ int_literal neg ds ++ jlit "}")
    with (chr "{" :: dquote
            :: lit "feedback"
            ++ dquote :: chr ":" :: chr " " :: dquote
            :: text
            ++ dquote :: chr "," :: chr " " :: dquote
            :: lit "score"
            ++ dquote :: chr ":" :: chr " "
            :: int_literal neg ds ++ [chr "}"]).
  unfold json_loads.
  match goal with |- context [scan_fuel ?s] =>
    destruct (@fuel_four s) as [f ->]; [cbn [length]; lia|] end.
  pose proof (@scan_int_literal f neg ds [] Hd) as Hn.
  cbn -[scanstring lit int_literal] in Hn.
  cbn -[scanstring lit int_literal].
  rewrite scanstring_plain by reflexivity.
  cbn -[scanstring lit int_literal].
  rewrite scanstring_plain by exact Ht.
  cbn -[scanstring lit int_literal].
  rewrite scanstring_plain by reflexivity.
  cbn -[scanstring lit int_literal].
  rewrite Hn. reflexivity.
Qed.

Lemma digits_no_backtick (ds : pystr) :
  forallb is_digit ds = true -> ~ In (chr "`") ds.
Proof.
  rewrite forallb_forall. intros H Hin. apply H in Hin. discriminate.
Qed.

Lemma int_digits_digits (ds : pystr) :
  int_digits ds = true -> forallb is_digit ds = true.
Proof.
  unfold int_digits. destruct ds as [|c t]; [discriminate|].
  rewrite andb_true_iff. tauto.
Qed.

(** [parse_json_response] on a brace-delimited text without backtick. *)
Lemma parse_json_response_object (mid : pystr) :
  ~ In (chr "`") mid ->
  parse_json_response (VStr (chr "{" :: mid ++ [chr "}"]))
  = match json_loads (chr "{" :: mid ++ [chr "}"]) with
    | Some v => v
    | None => VNone
    end.
Proof.
  intros H. apply parse_json_response_bare.
  change fence with (chr "`" :: lit "``"). apply find_head_absent.
  intros [E|E]; [discriminate|].
  apply in_app_or in E. destruct E as [E|[E|[]]]; [auto | discriminate].
Qed.

(** What the gateway makes of the two well-formed answers. *)
Lemma llm_call_question (generate : pystr -> result pystr)
    (prompt text : pystr) :
  generate prompt = Ok (jlit "{'next_question': '" ++ text ++ jlit "'}") ->
  forallb plain_char text = true ->
  _make_llm_call_async generate prompt
  = Ok (VDict [(lit "next_question", VStr text)]).
Proof.
  intros Hg Ht. unfold _make_llm_call_async, get_response_from_llm.
  rewrite Hg. cbn [bind].
  pose proof (@loads_question text Ht) as Hl.
  set (T := jlit "{'next_question': '" ++ text ++ jlit "'}") in *.
  assert (ET : T = chr "{"
                     :: (dquote :: lit "next_question"
                           ++ dquote :: chr ":" :: chr " " :: dquote
                           :: text ++ [dquote])
                     ++ [chr "}"]).
  { unfold T.
    change (jlit "{'next_question': '")
      with (chr "{" :: dquote
              :: lit "next_question" ++ [dquote; chr ":"; chr " "; dquote]).
    change (jlit "'}") with [dquote; chr "}"].
    repeat (progress (cbn [app]; rewrite <- ?app_assoc)). reflexivity. }
  rewrite ET in *. rewrite parse_json_response_object.
  - rewrite Hl. reflexivity.
  - apply plain_no_backtick in Ht.
    intros [E|E]; [discriminate|].
    apply in_app_or in E. destruct E as [E|E]; [revert E; not_in_text|].
    repeat (destruct E as [E|E]; [discriminate|]).
    apply in_app_or in E. destruct E as [E|[E|[]]]; [auto | discriminate].
Qed.

Lemma llm_call_feedback (generate : pystr -> result pystr)
    (prompt text ds : pystr) (neg : bool) :
  generate prompt
  = Ok (jlit "{'feedback': '" ++ text ++ jlit "', 'score': "
          ++ int_literal neg ds ++ jlit "}") ->
  forallb plain_char text = true ->
  int_digits ds = true ->
  _make_llm_call_async generate prompt
  = Ok (VDict [(lit "feedback", VStr text);
               (lit "score",
                VInt (cond_Zopp neg (Z.of_N (digits_value ds))))]).
Proof.
  intros Hg Ht Hd. unfold _make_llm_call_async, get_response_from_llm.
  rewrite Hg. cbn [bind].
  pose proof (@loads_feedback text neg ds Ht Hd) as Hl.
  set (T := jlit "{'feedback': '" ++ text ++ jlit "', 'score': "
              ++ int_literal neg ds ++ jlit "}") in *.
  assert (ET : T = chr "{"
                     :: (dquote :: lit "feedback"
                           ++ dquote :: chr ":" :: chr " " :: dquote
                           :: text
                           ++ dquote :: chr "," :: chr " " :: dquote
                           :: lit "score"
                           ++ dquote :: chr ":" :: chr " "
                           :: int_literal neg ds)
                     ++ [chr "}"]).
  { unfold T.
    change (jlit "{'feedback': '")
      with (chr "{" :: dquote
              :: lit "feedback" ++ [dquote; chr ":"; chr " "; dquote]).
    change (jlit "', 'score': ")
      with (dquote :: chr "," :: chr " " :: dquote
              :: lit "score" ++ [dquote; chr ":"; chr " "]).
    change (jlit "}") with [chr "}"].
    repeat (progress (cbn [app]; rewrite <- ?app_assoc)). reflexivity. }
  rewrite ET in *. rewrite parse_json_response_object.
  - rewrite Hl. reflexivity.
  - apply plain_no_backtick in Ht.
    apply int_digits_digits, digits_no_backtick in Hd.
    intros [E|E]; [discriminate|].
    apply in_app_or in E. destruct E as [E|E]; [revert E; not_in_text|].
    repeat (destruct E as [E|E]; [discriminate|]).
    apply in_app_or in E. destruct E as [E|E]; [auto|].
    repeat (destruct E as [E|E]; [discriminate|]).
    unfold int_literal in E. apply in_app_or in E.
    destruct E as [E|E]; [|auto].
    destruct neg; [destruct E as [E|[]]; discriminate | destruct E].
Qed.

Section RoundTrip.

Variable db : unicode_db.
Variable next_question_generation : pystr.
Variable feedback_generation : pystr.
Variable str_format : pystr -> list (pystr * pystr) -> result pystr.
Variable generate : pystr -> result pystr.

(** X12. When the remote model answers with the JSON object that has the
    one member [next_question], a string written without escapes,
    [get_next_question] returns exactly that string. *)
Theorem question_round_trip (q cr rh jd prompt text : pystr) :
  next_question_prompt next_question_generation str_format q cr rh jd
  = Ok prompt ->
  generate prompt = Ok (jlit "{'next_question': '" ++ text ++ jlit "'}") ->
  forallb plain_char text = true ->
  get_next_question db next_question_generation str_format generate
    q cr rh jd
  = Ok (VStr text).
Proof.
  intros Hp Hg Ht. unfold get_next_question.
  rewrite Hp. cbn [bind]. rewrite (@llm_call_question generate prompt text Hg Ht).
  vm_compute. reflexivity.
Qed.

(** X13. When the remote model answers with the JSON object whose
    members are [feedback], a string written without escapes, and
    [score], an integer literal of at most 4300 digits (the decoder
    refuses longer ones), [get_feedback_of_candidate_response] returns
    the two values exactly when the integer lies between 0 and 10, and
    otherwise refuses the score by name. *)
Theorem feedback_round_trip (q cr jd rh prompt text ds : pystr)
    (neg : bool) :
  let z := cond_Zopp neg (Z.of_N (digits_value ds)) in
  let outcome :=
    get_feedback_of_candidate_response db feedback_generation str_format
      generate q cr jd rh in
  feedback_prompt feedback_generation str_format q cr jd rh = Ok prompt ->
  generate prompt
  = Ok (jlit "{'feedback': '" ++ text ++ jlit "', 'score': "
          ++ int_literal neg ds ++ jlit "}") ->
  forallb plain_char text = true ->
  int_digits ds = true -> (Z.of_nat (length ds) <= 4300)%Z ->
  (outcome = Ok (VDict [(lit "feedback", VStr text); (lit "score", VInt z)])
   <-> (0 <= z <= 10)%Z)
  /\ (~ (0 <= z <= 10)%Z ->
      outcome
      = raise_analysis
          (lit "Feedback generation failed: Score must be a number: "
             ++ int_str z)).
Proof.
  intros z outcome Hp Hg Ht Hd _.
  assert (E : outcome
              = rewrap (lit "Feedback generation failed: ")
                  (feedback_of db
                     (VDict [(lit "feedback", VStr text);
                             (lit "score", VInt z)]))).
  { unfold outcome, get_feedback_of_candidate_response.
    rewrite Hp. cbn [bind]. now rewrite (@llm_call_feedback generate prompt text ds neg Hg Ht Hd). }
  rewrite E.
  erewrite feedback_of_present by reflexivity.
  pose proof (int_score_ok db z) as Hz.
  destruct (score_ok db (VInt z)); split.
  - split; [intros _; now apply Hz | reflexivity].
  - intros Hn. exfalso. apply Hn. now apply Hz.
  - split; [discriminate|]. intros H. apply Hz in H. discriminate.
  - intros _. rewrite rewrap_raise. now rewrite app_assoc.
Qed.

Variable generate_nq : pystr -> result pystr.

(** X14. The whole path: the two calls get well-formed answers, the
    score is an integer literal between 0 and 10, and both calls
    complete before the deadline, in either order. The combined
    operation then returns the question of the one answer and the
    feedback and score of the other. *)
Theorem analysis_round_trip (q cr jd rh pf pq ftext qtext ds : pystr)
    (pre post : list event) :
  feedback_prompt feedback_generation str_format q cr jd rh = Ok pf ->
  next_question_prompt next_question_generation str_format q cr rh jd
  = Ok pq ->
  generate pf
  = Ok (jlit "{'feedback': '" ++ ftext ++ jlit "', 'score': "
          ++ ds ++ jlit "}") ->
  generate_nq pq
  = Ok (jlit "{'next_question': '" ++ qtext ++ jlit "'}") ->
  forallb plain_char ftext = true -> forallb plain_char qtext = true ->
  int_digits ds = true -> (digits_value ds <= 10)%N ->
  In FeedbackDone pre -> In QuestionDone pre -> ~ In DeadlineReached pre ->
  analyze_candidate_response_and_generate_new_question
    db next_question_generation feedback_generation str_format
    generate generate_nq q cr jd rh (pre ++ post)
  = Some (Ok (VStr qtext,
              VDict [(lit "feedback", VStr ftext);
                     (lit "score", VInt (Z.of_N (digits_value ds)))])).
Proof.
  intros Hpf Hpq Hgf Hgq Hf Hq Hd Hv Hfd Hqd Hnd.
  unfold analyze_candidate_response_and_generate_new_question.
  erewrite wait_both_done; eauto.
  - unfold get_feedback_of_candidate_response. rewrite Hpf. cbn [bind].
    rewrite (@llm_call_feedback generate pf ftext ds false Hgf Hf Hd).
    cbn [bind cond_Zopp].
    erewrite feedback_of_present by reflexivity.
    assert (Hok : score_ok db (VInt (Z.of_N (digits_value ds))) = true)
      by (apply int_score_ok; lia).
    rewrite Hok. reflexivity.
  - unfold get_next_question. rewrite Hpq. cbn [bind].
    rewrite (@llm_call_question generate_nq pq qtext Hgq Hq). vm_compute. reflexivity.
Qed.

End RoundTrip.

(** ** More on the combined operation *)

Section CombinedRuns.

Variable db : unicode_db.
Variable next_question_generation : pystr.
Variable feedback_generation : pystr.
Variable str_format : pystr -> list (pystr * pystr) -> result pystr.
Variable generate_fb generate_nq : pystr -> result pystr.
Variable question candidate_response job_description resume_highlights
  : pystr.

Let feedback_call :=
  get_feedback_of_candidate_response db feedback_generation str_format
    generate_fb question candidate_response job_description
    resume_highlights.
Let question_call :=
  get_next_question db next_question_generation str_format
    generate_nq question candidate_response resume_highlights
    job_description.
Let combined :=
  analyze_candidate_response_and_generate_new_question
    db next_question_generation feedback_generation str_format
    generate_fb generate_nq
    question candidate_response job_description resume_highlights.

Lemma feedback_call_not_timeout (c : exn) :
  feedback_call = Raise c -> is_timeout c = false.
Proof. apply rewrap_not_timeout. Qed.

Lemma question_call_not_timeout (c : exn) :
  question_call = Raise c -> is_timeout c = false.
Proof. apply rewrap_not_timeout. Qed.

Lemma combined_eq (sched : list event) :
  combined sched
  = match wait_for_gather feedback_call question_call false false sched with
    | None => None
    | Some (Ok (f, q)) => Some (Ok (q, f))
    | Some (Raise e) =>
        if is_timeout e
        then Some (raise_analysis (lit "LLM operations timed out"))
        else Some (raise_analysis
                     (lit "Response analysis failed: " ++ exn_str e))
    end.
Proof. reflexivity. Qed.

(** X15. The combined operation returns a pair only when both sub-calls
    have succeeded and both have completed before the deadline, and the
    pair holds their two results: it never returns the result of one
    sub-call alone. *)
Theorem combined_success_complete (sched : list event) (nq fb : pyval) :
  combined sched = Some (Ok (nq, fb)) ->
  question_call = Ok nq
  /\ feedback_call = Ok fb
  /\ exists pre post,
       sched = pre ++ post
       /\ In FeedbackDone pre /\ In QuestionDone pre
       /\ ~ In DeadlineReached pre.
Proof.
  rewrite combined_eq.
  destruct (wait_for_gather feedback_call question_call false false sched)
    as [[[f q]|c]|] eqn:E; [|destruct (is_timeout c)|]; try discriminate.
  intros [= <- <-].
  apply wait_ok_inv in E.
  destruct E as (Hf & Hq & pre & post & -> & [H1|H1] & [H2|H2] & H3);
    try discriminate.
  split; [exact Hq|]. split; [exact Hf|]. exists pre, post. auto.
Qed.

(** X16. The error "LLM operations timed out" is raised exactly in the
    runs where the deadline is reached while the operation still waits.
    A timeout that the remote model raises inside a sub-call is not
    reported this way. *)
Theorem timeout_only_at_deadline (sched : list event) :
  combined sched = Some (raise_analysis (lit "LLM operations timed out"))
  <-> exists pre post,
        sched = pre ++ DeadlineReached :: post
        /\ still_waiting feedback_call question_call pre.
Proof.
  unfold still_waiting. rewrite combined_eq. split.
  - destruct (wait_for_gather feedback_call question_call false false sched)
      as [[[f q]|c]|] eqn:E; try discriminate.
    destruct (is_timeout c) eqn:Ht; [|discriminate]. intros _.
    eapply wait_timeout_inv; eauto using feedback_call_not_timeout,
      question_call_not_timeout.
  - intros (pre & post & -> & Hw).
    now rewrite wait_pending_deadline.
Qed.

(** X17. Once the deadline is in the schedule the caller is always
    resumed: with a pair or with an InterviewAnalysisError. *)
Theorem deadline_ends_wait (sched : list event) :
  In DeadlineReached sched ->
  (exists nq fb, combined sched = Some (Ok (nq, fb)))
  \/ exists msg, combined sched = Some (raise_analysis msg).
Proof.
  intros H. apply in_split in H. destruct H as (pre & post & ->).
  rewrite combined_eq.
  destruct (wait_for_gather feedback_call question_call false false pre)
    as [r|] eqn:E.
  - erewrite wait_final by exact E.
    destruct r as [[f q]|c]; [left; eauto|].
    right. destruct (is_timeout c); eauto.
  - rewrite wait_pending_deadline by exact E. right. cbn. eauto.
Qed.

(** X18. The combined operation fails fast: when a sub-call fails while
    the operation still waits, the operation fails at once with
    "Response analysis failed: " followed by the message of that
    sub-call, whatever the other sub-call does and whatever comes later. *)
Theorem first_failure_reported (pre post : list event) (e : exn) :
  still_waiting feedback_call question_call pre ->
  (~ In FeedbackDone pre -> feedback_call = Raise e ->
   combined (pre ++ FeedbackDone :: post)
   = Some (raise_analysis (lit "Response analysis failed: " ++ exn_str e)))
  /\ (~ In QuestionDone pre -> question_call = Raise e ->
      combined (pre ++ QuestionDone :: post)
      = Some (raise_analysis (lit "Response analysis failed: " ++ exn_str e))).
Proof.
  unfold still_waiting. intros Hw. split; intros Hn He; rewrite combined_eq.
  - erewrite wait_pending_feedback_fails by eassumption.
    now rewrite (feedback_call_not_timeout He).
  - erewrite wait_pending_question_fails by eassumption.
    now rewrite (question_call_not_timeout He).
Qed.

End CombinedRuns.

(** ** Concrete cases of the further properties *)

(** A refusal in prose has no brace at all. *)
Lemma parse_without_braces_witness :
  parse_json_response (VStr refusal_text) = VNone.
Proof. apply parse_without_braces. left. not_in_text. Defined.

(** The only closing brace comes before the opening one. *)
Lemma parse_braces_reversed_witness :
  parse_json_response (VStr (lit "} and then " ++ chr "{" :: lit " again"))
  = VNone.
Proof. apply parse_braces_reversed; not_in_text. Defined.

(** A JSON array goes through [_safe_json_parse] as a list. *)
Lemma safe_json_parse_result_witness :
  (exists d, VList [VInt 1; VInt 2] = VDict d)
  \/ (exists s,
         VStr (lit " [1, 2] ") = VStr s
         /\ json_loads (strip s) = Some (VList [VInt 1; VInt 2])).
Proof.
  apply (@safe_json_parse_result (VStr (lit " [1, 2] "))
           (VList [VInt 1; VInt 2])).
  run.
Defined.

Lemma safe_json_parse_extracts_witness :
  _safe_json_parse
    (VStr (lit "Result: " ++ (chr "{" :: object_body ++ [chr "}"])
             ++ lit " (end)"))
  = Ok (VDict [(lit "feedback", VStr (lit "clear answer"));
               (lit "score", VInt 7)]).
Proof.
  apply (@safe_json_parse_extracts (lit "Result: ") object_body
           (lit " (end)")).
  - run.
  - not_in_text.
  - not_in_text.
  - run.
Defined.

(** The fenced answer in prose and the bare object give the same
    outcomes. *)
Lemma wrapped_reply_transparent_witness :
  get_next_question ascii_db sample_question_template sample_format
    (answers (prose_before ++ (chr "{" :: object_body ++ [chr "}"])
                ++ prose_after))
    sample_question sample_answer sample_resume sample_job
  = get_next_question ascii_db sample_question_template sample_format
      (answers (chr "{" :: object_body ++ [chr "}"]))
      sample_question sample_answer sample_resume sample_job
  /\ get_feedback_of_candidate_response ascii_db sample_feedback_template
       sample_format
       (answers (prose_before ++ (chr "{" :: object_body ++ [chr "}"])
                   ++ prose_after))
       sample_question sample_answer sample_job sample_resume
     = get_feedback_of_candidate_response ascii_db sample_feedback_template
         sample_format (answers (chr "{" :: object_body ++ [chr "}"]))
         sample_question sample_answer sample_job sample_resume.
Proof.
  apply (@wrapped_reply_transparent ascii_db sample_question_template
           sample_feedback_template sample_format
           prose_before object_body prose_after).
  - run.
  - not_in_text.
  - not_in_text.
Defined.

(** The score 8 passes. *)
Lemma integer_score_witness :
  get_feedback_of_candidate_response ascii_db sample_feedback_template
    sample_format (answers integer_score_text)
    sample_question sample_answer sample_job sample_resume
  = Ok (VDict [(lit "feedback", VStr (lit "Good.")); (lit "score", VInt 8)]).
Proof.
  edestruct (@integer_score ascii_db sample_feedback_template sample_format
               (answers integer_score_text)
               sample_question sample_answer sample_job sample_resume)
    as (H & _).
  - run.
  - run.
  - run.
  - run.
  - apply H. lia.
Defined.

(** The score "7" of [feedback_text] is a string of digits. *)
Lemma digit_string_score_witness :
  get_feedback_of_candidate_response ascii_db sample_feedback_template
    sample_format (answers feedback_text)
    sample_question sample_answer sample_job sample_resume
  = Ok (VDict [(lit "feedback", VStr (lit "Clear and correct."));
               (lit "score", VStr (lit "7"))]).
Proof.
  edestruct (@digit_string_score ascii_db sample_feedback_template
               sample_format (answers feedback_text)
               sample_question sample_answer sample_job sample_resume)
    as (H & _).
  - run.
  - run.
  - run.
  - run.
  - discriminate.
  - run.
  - apply H. vm_compute. discriminate.
Defined.

(** The score [true] passes and comes back as [True]. *)
Lemma literal_score_witness :
  get_feedback_of_candidate_response ascii_db sample_feedback_template
    sample_format (answers boolean_score_text)
    sample_question sample_answer sample_job sample_resume
  = Ok (VDict [(lit "feedback", VStr (lit "Fine."));
               (lit "score", VBool true)]).
Proof.
  edestruct (@literal_score ascii_db sample_feedback_template sample_format
               (answers boolean_score_text)
               sample_question sample_answer sample_job sample_resume)
    as (H & _).
  - run.
  - run.
  - run.
  - run.
  - apply H. reflexivity.
Defined.

Lemma question_round_trip_witness :
  get_next_question ascii_db sample_question_template sample_format
    (answers question_text)
    sample_question sample_answer sample_resume sample_job
  = Ok (VStr (lit "How would you avoid a deadlock?")).
Proof.
  eapply (@question_round_trip ascii_db sample_question_template
            sample_format (answers question_text)
            sample_question sample_answer sample_resume sample_job).
  - run.
  - run.
  - run.
Defined.

Lemma feedback_round_trip_witness :
  get_feedback_of_candidate_response ascii_db sample_feedback_template
    sample_format (answers integer_score_text)
    sample_question sample_answer sample_job sample_resume
  = Ok (VDict [(lit "feedback", VStr (lit "Good.")); (lit "score", VInt 8)]).
Proof.
  edestruct (@feedback_round_trip ascii_db sample_feedback_template
               sample_format (answers integer_score_text)
               sample_question sample_answer sample_job sample_resume
               (sample_feedback_template
                  ++ flat_map (fun kv => 10%N :: fst kv ++ chr "=" :: snd kv)
                       [(lit "question", sample_question);
                        (lit "candidate_response", sample_answer);
                        (lit "job_description", sample_job);
                        (lit "resume_highlights", sample_resume)])
               (lit "Good.") (lit "8") false)
    as (H & _).
  - run.
  - run.
  - run.
  - run.
  - vm_compute. discriminate.
  - apply H. vm_compute. split; discriminate.
Defined.

(** Both sub-calls complete, the question first; the deadline comes
    later. *)
Lemma combined_success_complete_witness :
  get_next_question ascii_db sample_question_template sample_format
    (answers question_text)
    sample_question sample_answer sample_resume sample_job
  = Ok (VStr (lit "How would you avoid a deadlock?"))
  /\ get_feedback_of_candidate_response ascii_db sample_feedback_template
       sample_format (answers feedback_text)
       sample_question sample_answer sample_job sample_resume
     = Ok (VDict [(lit "feedback", VStr (lit "Clear and correct."));
                  (lit "score", VStr (lit "7"))])
  /\ exists pre post,
       [QuestionDone; FeedbackDone; DeadlineReached] = pre ++ post
       /\ In FeedbackDone pre /\ In QuestionDone pre
       /\ ~ In DeadlineReached pre.
Proof.
  apply (@combined_success_complete ascii_db sample_question_template
           sample_feedback_template sample_format
           (answers feedback_text) (answers question_text)
           sample_question sample_answer sample_job sample_resume
           [QuestionDone; FeedbackDone; DeadlineReached]).
  run.
Defined.

(** The feedback arrives, then the deadline: the caller is resumed. *)
Lemma deadline_ends_wait_witness :
  (exists nq fb,
      analyze_candidate_response_and_generate_new_question ascii_db
        sample_question_template sample_feedback_template sample_format
        (answers feedback_text) (answers question_text)
        sample_question sample_answer sample_job sample_resume
        [FeedbackDone; DeadlineReached]
      = Some (Ok (nq, fb)))
  \/ exists msg,
       analyze_candidate_response_and_generate_new_question ascii_db
         sample_question_template sample_feedback_template sample_format
         (answers feedback_text) (answers question_text)
         sample_question sample_answer sample_job sample_resume
         [FeedbackDone; DeadlineReached]
       = Some (raise_analysis msg).
Proof.
  apply (@deadline_ends_wait ascii_db sample_question_template
           sample_feedback_template sample_format
           (answers feedback_text) (answers question_text)
           sample_question sample_answer sample_job sample_resume
           [FeedbackDone; DeadlineReached]).
  simpl. auto.
Defined.

(** The question has arrived; the feedback call then fails on the empty
    object, and the operation fails with it before the deadline. *)
Lemma first_failure_reported_witness :
  analyze_candidate_response_and_generate_new_question ascii_db
    sample_question_template sample_feedback_template sample_format
    (answers empty_object_text) (answers question_text)
    sample_question sample_answer sample_job sample_resume
    ([QuestionDone] ++ FeedbackDone :: [DeadlineReached])
  = Some (raise_analysis
            (lit "Response analysis failed: "
               ++ lit "Feedback generation failed: Missing fields: ['feedback', 'score']")).
Proof.
  edestruct (@first_failure_reported ascii_db sample_question_template
               sample_feedback_template sample_format
               (answers empty_object_text) (answers question_text)
               sample_question sample_answer sample_job sample_resume
               [QuestionDone] [DeadlineReached]
               (Exn InterviewAnalysisError
                  (lit "Feedback generation failed: Missing fields: ['feedback', 'score']")))
    as (H & _).
  - run.
  - apply H.
    + intros [E|[]]. discriminate.
    + run.
Defined.

(** The two calls answer [integer_score_text] and [question_text]; the
    feedback arrives first. *)
Lemma analysis_round_trip_witness :
  analyze_candidate_response_and_generate_new_question ascii_db
    sample_question_template sample_feedback_template sample_format
    (answers integer_score_text) (answers question_text)
    sample_question sample_answer sample_job sample_resume
    ([FeedbackDone; QuestionDone] ++ [DeadlineReached])
  = Some (Ok (VStr (lit "How would you avoid a deadlock?"),
              VDict [(lit "feedback", VStr (lit "Good."));
                     (lit "score", VInt 8)])).
Proof.
  eapply (@analysis_round_trip ascii_db sample_question_template
            sample_feedback_template sample_format
            (answers integer_score_text) (answers question_text)
            sample_question sample_answer sample_job sample_resume
            _ _ (lit "Good.") (lit "How would you avoid a deadlock?")
            (lit "8") [FeedbackDone; QuestionDone] [DeadlineReached]).
  - run.
  - run.
  - run.
  - run.
  - run.
  - run.
  - run.
  - vm_compute. discriminate.
  - simpl; auto.
  - simpl; auto.
  - intros [H|[H|[]]]; discriminate.
Defined.
